(** * mitmachen: the article finder of [www/python/src/api.py]

    A shallow embedding of the category-tree expansion, the two-source
    problem aggregation and the bounded sampling of [Mitmachen], together
    with the properties stated about them.

    Conventions of the embedding (the code is read as Python 3):
    - a Python [str] is the [string] of its UTF-8 bytes; [bytes] values are
      [string]s as well, and [decode("utf-8")] is the validity check on
      them; a [str] has no [decode];
    - the database is an oracle answering the queries of one request; the
      queries sent and the errors logged are recorded in a [world];
    - an exception that leaves a method is the outcome [Raised];
    - a [dict] is the list of its items in insertion order, a [set] of
      strings a [gset];
    - the iteration order of a Python [set], the draws of the [random]
      module, and whether [random.sample] of the interpreter takes the view
      of a dictionary are parameters ([hash], [draws], [views]) of the
      functions using them. *)

From Stdlib Require Import Ascii String DecimalString.
From stdpp Require Import base option list sorting gmap strings.
From Equations Require Import Equations.

Open Scope string_scope.

(** ** Strings *)

Module Str.

(** [s.replace(old, new)] for one-character [old] and [new]. *)
Fixpoint replace (old new : ascii) (s : string) : string :=
  match s with
  | EmptyString => EmptyString
  | String c s' =>
      String (if Ascii.eqb c old then new else c) (replace old new s')
  end.

(** [c in s] for a one-character [c]. *)
Fixpoint contains (c : ascii) (s : string) : bool :=
  match s with
  | EmptyString => false
  | String c' s' => Ascii.eqb c' c || contains c s'
  end.

(** [sep.join(l)]. *)
Fixpoint join (sep : string) (l : list string) : string :=
  match l with
  | [] => ""
  | [s] => s
  | s :: l' => s +:+ sep +:+ join sep l'
  end.

(** ["%d" % n] for a non-negative [n]. *)
Definition format_d (n : nat) : string :=
  NilZero.string_of_uint (Nat.to_uint n).

(** ["%02d" % n] for a non-negative [n]: padded with zeros to two digits. *)
Definition format_02d (n : nat) : string :=
  let s := format_d n in
  if (String.length s <? 2)%nat then "0" +:+ s else s.

(** [range(a, b)]. *)
Definition range (a b : nat) : list nat := seq a (b - a).

Definition is_cont (b : N) : bool := (128 <=? b)%N && (b <=? 191)%N.

Definition between (lo hi b : N) : bool := (lo <=? b)%N && (b <=? hi)%N.

(** Well-formed UTF-8 (no overlong forms, no surrogates, at most U+10FFFF):
    the byte strings on which [decode("utf-8")] succeeds. *)
Fixpoint valid_utf8_bytes (bs : list N) : bool :=
  match bs with
  | [] => true
  | b0 :: r0 =>
      if (b0 <? 128)%N then valid_utf8_bytes r0
      else if between 194 223 b0 then
        match r0 with
        | b1 :: r1 => is_cont b1 && valid_utf8_bytes r1
        | _ => false
        end
      else if between 224 239 b0 then
        match r0 with
        | b1 :: b2 :: r2 =>
            (if (b0 =? 224)%N then between 160 191 b1
             else if (b0 =? 237)%N then between 128 159 b1
             else is_cont b1)
            && is_cont b2 && valid_utf8_bytes r2
        | _ => false
        end
      else if between 240 244 b0 then
        match r0 with
        | b1 :: b2 :: b3 :: r3 =>
            (if (b0 =? 240)%N then between 144 191 b1
             else if (b0 =? 244)%N then between 128 143 b1
             else is_cont b1)
            && is_cont b2 && is_cont b3 && valid_utf8_bytes r3
        | _ => false
        end
      else false
  end.

Fixpoint bytes_of (s : string) : list N :=
  match s with
  | EmptyString => []
  | String c s' => N_of_ascii c :: bytes_of s'
  end.

(** [b.decode("utf-8")]: the text, or [None] for [UnicodeDecodeError]. *)
Definition decode_utf8 (b : string) : option string :=
  if valid_utf8_bytes (bytes_of b) then Some b else None.

End Str.

(** ** The catalog of broken-link categories *)

Definition generate_iabot_cats : list string :=
  let archive :=
    flat_map (fun m => map (fun y =>
      "Wikipedia:Defekte_Weblinks/Ungeprüfte_Archivlinks_201"
        +:+ Str.format_d y +:+ "-" +:+ Str.format_02d m) [8; 9])
      (Str.range 4 13) in
  let dead :=
    flat_map (fun m => map (fun y =>
      "Wikipedia:Defekte_Weblinks/Ungeprüfte_Botmarkierungen_201"
        +:+ Str.format_d y +:+ "-" +:+ Str.format_02d m) [8; 9])
      (Str.range 4 13) in
  archive ++ dead.

(** ** Values, exceptions and results *)

(** What a [DictCursor] row holds in a text column: [bytes], [str] or
    [None] (SQL NULL). *)
Inductive pyval : Type :=
  | PyBytes (b : string)
  | PyStr (s : string)
  | PyNone.

#[global] Instance pyval_eq_dec : EqDecision pyval.
Proof. solve_decision. Defined.

#[global] Instance pyval_countable : Countable pyval.
Proof.
  refine (inj_countable'
    (fun v => match v with
              | PyBytes b => inl b
              | PyStr s => inr (Some s)
              | PyNone => inr None
              end)
    (fun c => match c with
              | inl b => PyBytes b
              | inr (Some s) => PyStr s
              | inr None => PyNone
              end) _).
  by intros [].
Defined.

Inductive exn : Type :=
  | KeyError
  | AttributeError
  | UnicodeDecodeError
  | ValueError
  | TypeError
  | DatabaseError.

#[global] Instance exn_eq_dec : EqDecision exn.
Proof. solve_decision. Defined.

(** The outcome of a computation that may raise. *)
Inductive result (A : Type) : Type :=
  | Ok (a : A)
  | Raised (e : exn).
Arguments Ok {A} a.
Arguments Raised {A} e.

Definition rbind {A B} (r : result A) (k : A -> result B) : result B :=
  match r with
  | Ok a => k a
  | Raised e => Raised e
  end.

Fixpoint rmap_list {A B} (f : A -> result B) (l : list A) : result (list B) :=
  match l with
  | [] => Ok []
  | x :: l' =>
      rbind (f x) (fun y => rbind (rmap_list f l') (fun ys => Ok (y :: ys)))
  end.

(** A row of a [DictCursor]: column name to value. *)
Abbreviation row := (gmap string pyval).

(** [item[key]]. *)
Definition getitem (item : row) (key : string) : result pyval :=
  match item !! key with
  | Some v => Ok v
  | None => Raised KeyError
  end.

(** [v.decode("utf-8")]: only [bytes] has the method. *)
Definition decode (v : pyval) : result string :=
  match v with
  | PyBytes b =>
      match Str.decode_utf8 b with
      | Some s => Ok s
      | None => Raised UnicodeDecodeError
      end
  | PyStr _ | PyNone => Raised AttributeError
  end.

(** ** The world of one request: database oracle, query trace, error log *)

Inductive query : Type :=
  | SubcategoryQuery (categories : list string)
  | ArticlesQuery (categories : string) (tags : list string)
  | IabotQuery (categories : string) (iabot_categories : list string).

(** What happens to a query: connecting, [execute] or [commit] raises;
    or the cursor is ready and [fetchall] raises or hands out rows. *)
Inductive response : Type :=
  | QueryFails
  | FetchFails
  | Rows (rows : list row).

(** The database: its answer to the [n]-th query of the request. *)
Definition service : Type := nat -> query -> response.

Record log_entry : Type := LogError { log_msg : string; log_exn : exn }.

Record world : Type := World { queries : list query; errors : list log_entry }.

Definition M (A : Type) : Type := world -> result A * world.

Definition ret {A} (a : A) : M A := fun w => (Ok a, w).

Definition bind {A B} (m : M A) (k : A -> M B) : M B :=
  fun w =>
    match m w with
    | (Ok a, w') => k a w'
    | (Raised e, w') => (Raised e, w')
    end.

Definition lift {A} (r : result A) : M A := fun w => (r, w).

(** [try: m except Exception as e: h e]. *)
Definition try_except {A} (m : M A) (h : exn -> M A) : M A :=
  fun w =>
    match m w with
    | (Ok a, w') => (Ok a, w')
    | (Raised e, w') => h e w'
    end.

(** [self.logger.error(msg, e)]. *)
Definition logger_error (msg : string) (e : exn) : M unit :=
  fun w => (Ok tt, World (queries w) (errors w ++ [LogError msg e])).

Declare Scope py_scope.
Delimit Scope py_scope with py.
Notation "'let!' x ':=' m 'in' k" := (bind m (fun x => k))
  (at level 10, x name, m at level 100, k at level 200, only parsing)
  : py_scope.
Notation "'let?' x ':=' r 'in' k" := (rbind r (fun x => k))
  (at level 10, x name, r at level 100, k at level 200, only parsing)
  : py_scope.

(** ** Python dictionaries with string keys, in insertion order *)

Module Dict.

Definition t (V : Type) : Type := list (string * V).

Definition empty {V} : t V := [].

(** [d[k]], [None] for [KeyError]. *)
Fixpoint get {V} (k : string) (d : t V) : option V :=
  match d with
  | [] => None
  | (k', v) :: d' => if decide (k' = k) then Some v else get k d'
  end.

(** [d[k] = v]: an existing key keeps its place, a new one goes last. *)
Fixpoint set {V} (k : string) (v : V) (d : t V) : t V :=
  match d with
  | [] => [(k, v)]
  | (k', v') :: d' =>
      if decide (k' = k) then (k', v) :: d' else (k', v') :: set k v d'
  end.

(** [d.items()]. *)
Definition items {V} (d : t V) : list (string * V) := d.

Definition keys {V} (d : t V) : list string := d.*1.

(** The keys of a dictionary are distinct. *)
Definition wf {V} (d : t V) : Prop := NoDup (keys d).

End Dict.

(** ** The [random] module

    [random.sample(population, k)] of CPython. A population that is a set
    or a view of a dictionary is turned into the tuple of its items up to
    Python 3.10 (with a warning of its deprecation from 3.9 on) and refused
    with [TypeError] from Python 3.11 on; a sample larger than the
    population is a [ValueError]. Up to [setsize] items the
    sample is taken from a pool: [k] times, draw an index [j] below the
    number of live slots, take [pool[j]] and move the last live item into
    slot [j]. Above, positions below [n] are drawn, a position that is
    already selected is drawn again, and the item at the position is taken.

    The values of the generator come from [draws], one per call of
    [randbelow]. A generator never runs dry: where the list ends, the pool
    strategy goes on with zeros, and the selection strategy with
    [0, 1, ..., n - 1], which ends its loop. *)

Module Random.

Definition randbelow (d n : nat) : nat := d mod n.

(** [live]: the number of live slots, [n - i] in round [i]. *)
Fixpoint sample_loop {A} (draws : list nat) (pool : list A) (live k : nat)
  : list A :=
  match k with
  | 0 => []
  | S k' =>
      let j := randbelow (hd 0 draws) live in
      match pool !! j, pool !! (live - 1) with
      | Some x, Some y =>
          x :: sample_loop (tl draws) (<[j := y]> pool) (live - 1) k'
      | _, _ => []
      end
  end.

(** The loop of the selection strategy: [k] items are still to be taken,
    [selected] holds the positions taken so far. Every call of [randbelow]
    uses up one draw; a draw that repeats a selected position leaves [k]
    and [selected] as they are. *)
Fixpoint select_loop {A} (draws : list nat) (population : list A) (n : nat)
  (selected : gset nat) (k : nat) {struct draws} : list A :=
  match k, draws with
  | 0, _ => []
  | S _, [] => []
  | S k', d :: draws' =>
      let j := randbelow d n in
      if decide (j ∈ selected) then select_loop draws' population n selected k
      else
        match population !! j with
        | Some x => x :: select_loop draws' population n ({[ j ]} ∪ selected) k'
        | None => []
        end
  end.

(** [_ceil(_log(m, 4))] for a positive [m]. *)
Definition ceil_log4 (m : nat) : nat := (Nat.log2_up m + 1) / 2.

(** [setsize = 21; if k > 5: setsize += 4 ** _ceil(_log(k * 3, 4))]. *)
Definition setsize (k : nat) : nat :=
  21 + (if (5 <? k)%nat then 4 ^ ceil_log4 (k * 3) else 0).

(** The sample of a sequence. *)
Definition sample_sequence {A} (draws : list nat) (population : list A)
  (k : nat) : result (list A) :=
  let n := length population in
  if decide (k <= n) then
    if decide (n <= setsize k) then Ok (sample_loop draws population n k)
    else Ok (select_loop (draws ++ seq 0 n)%list population n ∅ k)
  else Raised ValueError.

(** What is sampled: a list or tuple, or a set or a view of a dictionary
    (given by its items in the order of iteration). *)
Inductive population (A : Type) : Type :=
  | Sequence (items : list A)
  | View (items : list A).
Arguments Sequence {A} items.
Arguments View {A} items.

(** [views]: the interpreter samples sets and views (up to Python 3.10). *)
Definition sample {A} (views : bool) (draws : list nat) (p : population A)
  (k : nat) : result (list A) :=
  match p with
  | Sequence items => sample_sequence draws items k
  | View items =>
      if views then sample_sequence draws items k else Raised TypeError
  end.

End Random.

(** ** The class [Mitmachen] *)

Definition MAX_DEPTH : nat := 3.

Definition TAGS : list string :=
  ["Überarbeiten"; "Lückenhaft"; "Veraltet";
   "Belege_fehlen"; "Allgemeinverständlichkeit"].

Definition NUM : nat := 10.

Definition IABOT_CATS : list string := generate_iabot_cats.

(** One entry of the list a request returns:
    [{"page": page, "problems": problems}]. *)
Record page_result : Type :=
  PageResult { page : string; problems : list pyval }.

(** The order in which a set is iterated: by the hash of its members. *)
Definition hash_le {A} (h : A -> N) : relation A :=
  fun x y => (h x <= h y)%N.

#[global] Instance hash_le_dec {A} (h : A -> N) : RelDecision (hash_le h).
Proof. intros x y. unfold hash_le. apply _. Defined.

(** [list(s)]: the members of [s], in the order the hash gives them. *)
Definition py_list `{Countable A} (h : A -> N) (s : gset A) : list A :=
  merge_sort (hash_le h) (elements s).

Section Mitmachen.

(** The database of the request, the hash that orders the iteration of
    sets, the values the random generator hands out, and whether the
    interpreter's [random.sample] takes the view of a dictionary (Python up
    to 3.10) or raises [TypeError] on it (Python 3.11 and later). *)
Context (svc : service) (hash : pyval -> N) (draws : list nat) (views : bool).

(** [cursor.execute(q, ...); conn.commit()] on a fresh connection. The
    cursor is the response still to be fetched. *)
Definition execute (q : query) : M response :=
  fun w =>
    let w' := World (queries w ++ [q]) (errors w) in
    match svc (length (queries w)) q with
    | QueryFails => (Raised DatabaseError, w')
    | r => (Ok r, w')
    end.

(** [cursor.fetchall()]. *)
Definition fetchall (cursor : response) : result (list row) :=
  match cursor with
  | Rows rows => Ok rows
  | FetchFails | QueryFails => Raised DatabaseError
  end.

Definition no_colon (cat : string) : bool := negb (Str.contains ":" cat).

(** Lines 141-147 of [_find_all_subcategories]: the titles of the rows
    of the cursor; an exception while fetching the rows or decoding a title
    is logged and leaves no subcategory at all. *)
Definition titles_of (cursor : response) : result (list string) :=
  (let? items := fetchall cursor in
   rmap_list (fun item => let? v := getitem item "page_title" in decode v)
     items)%py.

Definition read_subcategories (cursor : response) : M (list string) :=
  try_except (lift (titles_of cursor))
    (fun e =>
       let! _ := logger_error
                   "Failed to create a list of subcategories: %s" e in
       ret [])%py.

(** [tree] is updated in place by the method; here the updated set is
    what it returns. *)
Equations? _find_all_subcategories
  (categories : list string) (tree : gset string) (depth : nat)
  : M (gset string) by wf (MAX_DEPTH - depth) lt :=
_find_all_subcategories categories tree depth
  with decide (MAX_DEPTH <= depth) := {
  | left _ => ret tree
  | right _ =>
      let categories := filter (fun cat => no_colon cat = true) categories in
      if decide (categories = []) then ret tree
      else
        (let! cursor := execute (SubcategoryQuery categories) in
         let! subcategories := read_subcategories cursor in
         _find_all_subcategories subcategories
           (tree ∪ list_to_set subcategories) (depth + 1))%py }.
Proof. lia. Qed.

(** The body of the loop of [_extract_problems] up to its [continue]:
    page and problem of a row, or the exception that skips the row. *)
Definition extract_row (item : row) : result (string * pyval) :=
  (let? page := (let? v := getitem item "page_title" in decode v) in
   let? problem :=
     match (let? v := getitem item "tl_title" in decode v) with
     | Ok s => Ok (PyStr (Str.replace "_" " " s))
     | Raised AttributeError => getitem item "tl_title"
     | Raised e => Raised e
     end in
   Ok (page, problem))%py.

(** Lines 200-203: [articles[page].append(problem)], and
    [articles[page] = [problem]] on [KeyError]. *)
Definition add_problem (page : string) (problem : pyval)
  (articles : Dict.t (list pyval)) : Dict.t (list pyval) :=
  match Dict.get page articles with
  | Some l => Dict.set page (l ++ [problem])%list articles
  | None => Dict.set page [problem] articles
  end.

Fixpoint _extract_problems
  (result : list row) (articles : Dict.t (list pyval))
  : M (Dict.t (list pyval)) :=
  match result with
  | [] => ret articles
  | item :: result' =>
      match extract_row item with
      | Raised e =>
          (let! _ := logger_error
                       "Failed to extract problem from query result: %s" e in
           _extract_problems result' articles)%py
      | Ok (page, problem) =>
          _extract_problems result' (add_problem page problem articles)
      end
  end.

(** [{"page": page, "problems": list(set(problems))}]. *)
Definition page_entry (item : string * list pyval) : page_result :=
  let '(page, problems) := item in
  PageResult page (py_list hash (list_to_set problems)).

(** Lines 176-183 of [_find_tagged_articles]: the sample and the
    de-duplication of each page's problems. *)
Definition finalize (articles : Dict.t (list pyval))
  : result (list page_result * bool) :=
  (let articles := Dict.items articles in
   let more := (NUM <? length articles)%nat in
   let? articles :=
     (if more then Random.sample views draws (Random.View articles) NUM
      else Ok articles) in
   Ok (map page_entry articles, more))%py.

Definition _find_tagged_articles (categories : list string)
  : M (list page_result * bool) :=
  (let articles := Dict.empty in
   let categories_concat := Str.join "|" categories in
   let! cursor := execute (ArticlesQuery categories_concat TAGS) in
   let! rows := lift (fetchall cursor) in
   let! articles := _extract_problems rows articles in
   let! cursor := execute (IabotQuery categories_concat IABOT_CATS) in
   let! rows := lift (fetchall cursor) in
   let! articles := _extract_problems rows articles in
   lift (finalize articles))%py.

Definition find_articles (category : string)
  : M (list page_result * bool) :=
  (let tree := {[ Str.replace " " "_" category ]} in
   let! tree := _find_all_subcategories [category] tree 0 in
   _find_tagged_articles (py_list (fun s => hash (PyStr s)) tree))%py.

End Mitmachen.

(** The expansion stage of [find_articles]: its first two lines. *)
Definition expansion (svc : service) (category : string) : M (gset string) :=
  _find_all_subcategories svc [category]
    {[ Str.replace " " "_" category ]} 0.

(** The problems that the rows of a result report for [page], in order. *)
Definition labels_for (page : string) (rows : list row) : list pyval :=
  omap (fun item =>
          match extract_row item with
          | Ok (p, problem) => if decide (p = page) then Some problem else None
          | Raised _ => None
          end) rows.

(** The world before the first query of a request. *)
Definition w0 : world := World [] [].

(** The positions of the population that the two strategies of
    [random.sample] select, in the order of selection: what their loops
    take from the population [0, ..., n-1]. *)
Definition pool_positions (draws : list nat) (n k : nat) : list nat :=
  Random.sample_loop draws (seq 0 n) n k.

Definition select_positions (draws : list nat) (n k : nat) : list nat :=
  Random.select_loop draws (seq 0 n) n ∅ k.

(** The positions among the draws that the selection strategy has not
    selected yet. *)
Definition unselected (n : nat) (draws : list nat) (selected : gset nat)
  : gset nat :=
  list_to_set ((fun d => Random.randbelow d n) <$> draws) ∖ selected.

(** The positions that [random.sample] selects from a population of [n]. *)
Definition sample_positions (draws : list nat) (n k : nat) : list nat :=
  if decide (n ≤ Random.setsize k)%nat then pool_positions draws n k
  else select_positions (draws ++ seq 0 n)%list n k.

(** The draws the pool strategy can receive for a population of [n] and
    a sample of [k]: round [i] calls [randbelow (n - i)], whose value is
    below [n - i]. The generator hands out each such list with the same
    probability. *)
Definition admissible (n k : nat) (draws : list nat) : Prop :=
  length draws = k ∧ ∀ i d, draws !! i = Some d → d < n - i.

(** The selections of [k] distinct positions of a population of [n]. *)
Definition arrangement (n k : nat) (positions : list nat) : Prop :=
  length positions = k ∧ NoDup positions ∧ ∀ i, i ∈ positions → i < n.

(** Exchanging two positions. *)
Definition swap (a b x : nat) : nat :=
  if decide (x = a) then b else if decide (x = b) then a else x.

(** A renaming of the positions that takes the selection [p] to the
    selection [q], with its inverse. *)
Fixpoint relabel (p q : list nat) : (nat → nat) * (nat → nat) :=
  match p, q with
  | a :: p', b :: q' =>
      let '(f, g) := relabel p' q' in
      (fun x => swap (f a) b (f x), fun y => g (swap (f a) b y))
  | _, _ => (id, id)
  end.

(** The subcategories a level reads off its cursor: the titles, or none
    when reading them raises. *)
Definition subcategories_of (cursor : response) : list string :=
  match titles_of cursor with
  | Ok titles => titles
  | Raised _ => []
  end.

(** What a level logs when it reads its cursor. *)
Definition subcategories_log (cursor : response) : list log_entry :=
  match titles_of cursor with
  | Ok _ => []
  | Raised e => [LogError "Failed to create a list of subcategories: %s" e]
  end.

(** The batches of identifiers sent to the subcategory query from the
    [n]-th query of the request on: each batch is the frontier of its level,
    which is not empty, and the next frontier is what the database answered
    to the batch, without the identifiers that contain a colon. *)
Fixpoint frontier_chain (svc : service) (n : nat) (frontier : list string)
  (batches : list (list string)) : Prop :=
  match batches with
  | [] => True
  | b :: bs =>
      b = frontier ∧ frontier ≠ []
      ∧ frontier_chain svc (S n)
          (filter (fun cat => no_colon cat = true)
             (subcategories_of (svc n (SubcategoryQuery b))))
          bs
  end.

(** The identifiers sent to the subcategory query, in the order sent. *)
Definition submitted (w : world) : list string :=
  flat_map (fun q => match q with
                     | SubcategoryQuery categories => categories
                     | _ => []
                     end) (queries w).

(** ** Databases used as examples *)

Definition title_row (title : string) : row :=
  {[ "page_title" := PyBytes title ]}.

Definition problem_row (title : string) (problem : pyval) : row :=
  {[ "page_title" := PyBytes title; "tl_title" := problem ]}.

(** A category graph with a cycle: [A] has the subcategory [B], and [B]
    has the subcategory [A]; no page has a problem. *)
Definition svc_cycle : service := fun _ q =>
  match q with
  | SubcategoryQuery ["A"] => Rows [title_row "B"]
  | SubcategoryQuery ["B"] => Rows [title_row "A"]
  | _ => Rows []
  end.


(** A database whose subcategory cursor cannot be read, and one whose
    subcategory rows hold a title that is not [bytes]. *)
Definition svc_fetch_fault : service := fun _ q =>
  match q with
  | SubcategoryQuery _ => FetchFails
  | _ => Rows []
  end.

Definition svc_title_fault : service := fun _ q =>
  match q with
  | SubcategoryQuery _ =>
      Rows [title_row "B"; {[ "page_title" := PyStr "C" ]}]
  | _ => Rows []
  end.

(** The example of the specification: no subcategories, the first source
    reports the same problem of one page twice, the second source also. *)
Definition svc_duplicates : service := fun _ q =>
  match q with
  | SubcategoryQuery _ => Rows []
  | ArticlesQuery _ _ =>
      Rows [problem_row "ArticleA" (PyBytes "Lückenhaft");
            problem_row "ArticleA" (PyBytes "Lückenhaft");
            problem_row "ArticleB" (PyBytes "Belege_fehlen")]
  | IabotQuery _ _ =>
      Rows [problem_row "ArticleA" (PyStr "Lückenhaft");
            problem_row "ArticleB" (PyStr "Defekte Weblinks")]
  end.

(** Two hashes that order sets differently. *)
Definition hash_zero : pyval -> N := fun _ => 0%N.

Definition hash_length : pyval -> N := fun v =>
  match v with
  | PyStr s | PyBytes s => (100 - N.of_nat (String.length s))%N
  | PyNone => 0%N
  end.

(** A dictionary of twelve pages, and draws for a sample of it. *)
Definition articles_twelve : Dict.t (list pyval) :=
  map (fun i => ("Page_" +:+ Str.format_d i, [PyStr "Veraltet"])) (seq 0 12).

Definition draws_ex : list nat := [11; 0; 7; 3; 3; 1; 0; 2; 1; 0].

(** A dictionary of ninety pages, and draws in which positions repeat. *)
Definition articles_ninety : Dict.t (list pyval) :=
  map (fun i => ("Page_" +:+ Str.format_d i, [PyStr "Veraltet"])) (seq 0 90).

Definition draws_repeating : list nat :=
  [3; 3; 3; 10; 0; 3; 0; 2; 1; 0; 7; 8; 9; 10; 11; 12; 13; 14].

(** A dictionary of two pages. *)
Definition articles_two : Dict.t (list pyval) :=
  [("ArticleA", [PyStr "Lückenhaft"; PyStr "Veraltet"; PyStr "Lückenhaft"]);
   ("ArticleB", [PyStr "Belege fehlen"])].

(** ** The naming form of the catalog *)

(** [<root>/<type>_<year>-<month>], the month in two digits. *)
Definition catalog_name (root type : string) (year month : nat) : string :=
  root +:+ "/" +:+ type +:+ "_" +:+ Str.format_d year +:+ "-"
    +:+ Str.format_02d month.

Definition iabot_root : string := "Wikipedia:Defekte_Weblinks".

Definition iabot_types : list string :=
  ["Ungeprüfte_Archivlinks"; "Ungeprüfte_Botmarkierungen"].

Definition iabot_years : list nat := [2018; 2019].

(** The catalog holds the names of both types for both years and
    [month]. *)
Definition catalog_covers_month (month : nat) : Prop :=
  ∀ type year,
    type ∈ iabot_types → year ∈ iabot_years →
    catalog_name iabot_root type year month ∈ generate_iabot_cats.

(** The category of the failing request of [find_articles]. *)
Definition category_with_space : string := "19. Jahrhundert".

(** ** The category lookups: [matching_categories], [suggest_categories]
    and [autocomplete]

    A lookup is a request of its own, with queries of its own kinds; its
    world is the list of the queries sent (nothing is ever logged, see
    [logger_log]). [str.capitalize] and [str.lower] follow the Unicode
    tables of the interpreter and are parameters of the methods. *)

Module Lookup.

Inductive query : Type :=
  | AutocompleteQuery (first_letters : string)
  | SuggestQuery.

Definition service : Type := nat -> query -> response.

(** What can leave a lookup: an exception of the database or of a row, or
    the [TypeError] of [Logger.log]. *)
Inductive exception : Type :=
  | Builtin (e : exn)
  | TypeError.

Inductive outcome (A : Type) : Type :=
  | Returns (a : A)
  | Raises (e : exception).
Arguments Returns {A} a.
Arguments Raises {A} e.

Definition M (A : Type) : Type := list query -> outcome A * list query.

(** [[f(x) for x in l if ...]] where the condition and [f] may raise:
    [f x] is [Ok None] for an [x] the condition leaves out. *)
Fixpoint rfilter_map {A B} (f : A -> result (option B)) (l : list A)
  : result (list B) :=
  match l with
  | [] => Ok []
  | x :: l' =>
      (let? o := f x in
       let? ys := rfilter_map f l' in
       Ok match o with Some y => y :: ys | None => ys end)%py
  end.

(** The element of the comprehension of lines 75-77 and 102-104 for one
    row: the condition decodes the title, and so does the expression. *)
Definition category_name (item : row) : result (option string) :=
  (let? title := (let? v := getitem item "cat_title" in decode v) in
   if Str.contains ":" title then Ok None
   else
     let? name := (let? v := getitem item "cat_title" in decode v) in
     Ok (Some (Str.replace "_" " " name)))%py.

(** The comprehension of lines 75-77 and 102-104. *)
Definition category_names (cursor : response) : result (list string) :=
  (let? items := fetchall cursor in rfilter_map category_name items)%py.

(** [self.logger.log(msg, e)]: the message stands where [Logger.log] takes
    the level, and a level that is no integer makes it raise [TypeError]
    when [logging.raiseExceptions] is set (it is, unless a program clears
    it) and return without logging otherwise. *)
Definition logger_log (raiseExceptions : bool) (level : string) (msg : exn)
  : outcome unit :=
  if raiseExceptions then Raises TypeError else Returns tt.

(** [s[:n]]: the first [n] characters of [s]; a character is a byte that
    is no continuation byte, with the continuation bytes that follow it. *)
Fixpoint take_chars (n : nat) (s : string) : string :=
  match s with
  | EmptyString => EmptyString
  | String c s' =>
      if Str.is_cont (N_of_ascii c) then String c (take_chars n s')
      else
        match n with
        | 0 => EmptyString
        | S n' => String c (take_chars n' s')
        end
  end.

Section Methods.

Context (svc : service) (raiseExceptions : bool)
  (capitalize lower : string -> string)
  (all_categories : Dict.t (list string)).

Definition matching_categories (first_letters : string) : M (list string) :=
  fun trace =>
    let q := AutocompleteQuery (capitalize first_letters +:+ "%") in
    let trace' := (trace ++ [q])%list in
    match svc (length trace) q with
    | QueryFails => (Raises (Builtin DatabaseError), trace')
    | cursor =>
        match category_names cursor with
        | Ok names => (Returns names, trace')
        | Raised e =>
            match logger_log raiseExceptions
                    "Failed to return list of matching categories: %s" e with
            | Raises e' => (Raises e', trace')
            | Returns _ => (Returns [], trace')
            end
        end
    end.

Definition autocomplete (first_letters : string) : M (list string) :=
  fun trace =>
    if bool_decide (all_categories ≠ []) then
      let key := capitalize (take_chars 3 first_letters) in
      (Returns
         (filter
            (fun cat => String.prefix (lower first_letters) (lower cat) = true)
            (default [] (Dict.get key all_categories))),
       trace)
    else matching_categories first_letters trace.

Definition suggest_categories : M (list string) :=
  fun trace =>
    let trace' := (trace ++ [SuggestQuery])%list in
    match svc (length trace) SuggestQuery with
    | QueryFails => (Raises (Builtin DatabaseError), trace')
    | cursor =>
        match category_names cursor with
        | Ok sugg => (Returns sugg, trace')
        | Raised e =>
            match logger_log raiseExceptions
                    "Failed to return list of random categories: %s" e with
            | Raises e' => (Raises e', trace')
            | Returns _ =>
                (Returns ["China"; "19. Jahrhundert"; "Fußball"], trace')
            end
        end
    end.

End Methods.

(** The title of a row of categories is well formed [bytes]. *)
Definition good_title (item : row) (b : string) : Prop :=
  item !! "cat_title" = Some (PyBytes b) ∧ is_Some (Str.decode_utf8 b).

(** The title of a row is missing, no [bytes], or no UTF-8. *)
Definition bad_title (item : row) : Prop :=
  ∀ b, item !! "cat_title" = Some (PyBytes b) → Str.decode_utf8 b = None.

(** [str.lower] and [str.capitalize] on text whose letters are ASCII. *)
Definition ascii_lower_char (c : ascii) : ascii :=
  let n := N_of_ascii c in
  if (65 <=? n)%N && (n <=? 90)%N then ascii_of_N (n + 32) else c.

Definition ascii_upper_char (c : ascii) : ascii :=
  let n := N_of_ascii c in
  if (97 <=? n)%N && (n <=? 122)%N then ascii_of_N (n - 32) else c.

Fixpoint ascii_lower (s : string) : string :=
  match s with
  | EmptyString => EmptyString
  | String c s' => String (ascii_lower_char c) (ascii_lower s')
  end.

Definition ascii_capitalize (s : string) : string :=
  match s with
  | EmptyString => EmptyString
  | String c s' => String (ascii_upper_char c) (ascii_lower s')
  end.

(** A cache of two buckets, and a database of categories. *)
Definition cache_ex : Dict.t (list string) :=
  [("Fre", ["Fremdsprache"; "Freiburg"; "Fresko"]);
   ("Chi", ["China"; "Chile"])].

Definition cat_row (title : string) : row :=
  {[ "cat_title" := PyBytes title ]}.

Definition svc_ex : service := fun _ q =>
  match q with
  | AutocompleteQuery _ =>
      Rows [cat_row "Fremde_Welten"; cat_row "Wikipedia:Fremd";
            cat_row "Freiburg"]
  | SuggestQuery => Rows [cat_row "19._Jahrhundert"; cat_row "Benutzer:X"]
  end.

(** A database with a title that is [NULL]. *)
Definition svc_null : service := fun _ _ =>
  Rows [cat_row "China"; {[ "cat_title" := PyNone ]}].

End Lookup.

(** ** Definitions for the properties of the request *)

(** The titles the database returned for the batches sent from the
    [n]-th query on. *)
Fixpoint answers (svc : service) (n : nat) (batches : list (list string))
  : list string :=
  match batches with
  | [] => []
  | b :: bs =>
      app (subcategories_of (svc n (SubcategoryQuery b)))
        (answers svc (S n) bs)
  end.

(** The rows [_extract_problems] does not skip, and what it logs for those
    it skips. *)
Definition extractable (item : row) : bool :=
  match extract_row item with
  | Ok _ => true
  | Raised _ => false
  end.

Definition extraction_errors (rows : list row) : list log_entry :=
  omap (fun item =>
          match extract_row item with
          | Ok _ => None
          | Raised e =>
              Some (LogError
                      "Failed to extract problem from query result: %s" e)
          end) rows.

(** The pages the extractable rows report, in the order of the rows. *)
Definition reported_pages (rows : list row) : list string :=
  omap (fun item =>
          match extract_row item with
          | Ok (p, _) => Some p
          | Raised _ => None
          end) rows.

(** The dictionary [_extract_problems] builds, as a fold over the rows. *)
Definition aggregate (rows : list row) (articles : Dict.t (list pyval))
  : Dict.t (list pyval) :=
  foldl (fun articles item =>
           match extract_row item with
           | Ok (page, problem) => add_problem page problem articles
           | Raised _ => articles
           end) articles rows.

(** The pages of a list after those [seen], each once, in the order of
    their first occurrence. *)
Definition first_occurrences_from (seen pages : list string) : list string :=
  foldl (fun acc p => if decide (p ∈ acc) then acc else (acc ++ [p])%list)
    seen pages.

Definition first_occurrences (pages : list string) : list string :=
  first_occurrences_from [] pages.

(** The failures a request does not survive: of a query, or of the fetch
    of a query for pages. *)
Definition query_failed (svc : service) (i : nat) (q : query) : Prop :=
  svc i q = QueryFails
  ∨ (svc i q = FetchFails ∧ ∀ categories, q ≠ SubcategoryQuery categories).


(** A problem is text, or [None]: no [bytes]. *)
Definition is_text (v : pyval) : Prop :=
  match v with
  | PyStr _ | PyNone => True
  | PyBytes _ => False
  end.

(** A database with a category in a namespace among the subcategories,
    and pages with problems. *)
Definition svc_portal : service := fun _ q =>
  match q with
  | SubcategoryQuery ["Sport"] =>
      Rows [title_row "Fußball"; title_row "Portal:Sport"]
  | SubcategoryQuery ["Fußball"] => Rows [title_row "Fußballspieler"]
  | SubcategoryQuery _ => Rows []
  | ArticlesQuery _ _ =>
      Rows [problem_row "Abseits" (PyBytes "Belege_fehlen");
            {[ "page_title" := PyBytes "Tor" ]};
            problem_row "Elfmeter" PyNone]
  | IabotQuery _ _ =>
      Rows [problem_row "Abseits" (PyStr "Defekter_Weblink")]
  end.

(** A database whose second query for pages fails. *)
Definition svc_iabot_down : service := fun _ q =>
  match q with
  | SubcategoryQuery _ => Rows []
  | ArticlesQuery _ _ => Rows [problem_row "Abseits" (PyBytes "Veraltet")]
  | IabotQuery _ _ => QueryFails
  end.

Ltac split5 := refine (conj _ (conj _ (conj _ (conj _ _)))).

Close Scope string_scope.

(** ** Dictionaries *)

Module DictFacts.

Lemma get_set_eq {V} k (v : V) d : Dict.get k (Dict.set k v d) = Some v.
Proof.
  induction d as [|[k' v'] d IH]; simpl.
  - by rewrite decide_True.
  - destruct (decide (k' = k)) as [->|Hne]; simpl.
    + by rewrite decide_True.
    + by rewrite decide_False.
Qed.

Lemma get_set_ne {V} k k' (v : V) d :
  k ≠ k' → Dict.get k' (Dict.set k v d) = Dict.get k' d.
Proof.
  intros Hne. induction d as [|[k0 v0] d IH]; simpl.
  - by rewrite decide_False.
  - destruct (decide (k0 = k)) as [->|Hk]; simpl.
    + by rewrite !decide_False.
    + by rewrite IH.
Qed.

Lemma get_None {V} k (d : Dict.t V) : Dict.get k d = None ↔ k ∉ Dict.keys d.
Proof.
  unfold Dict.keys. induction d as [|[k0 v0] d IH]; simpl.
  - split; [intros _; apply not_elem_of_nil | done].
  - rewrite not_elem_of_cons. destruct (decide (k0 = k)) as [->|Hk].
    + split; [done | by intros [? _]].
    + rewrite IH. split; [by intros | by intros [_ ?]].
Qed.

Lemma keys_set {V} k (v : V) d :
  Dict.keys (Dict.set k v d) =
  if decide (k ∈ Dict.keys d) then Dict.keys d else (Dict.keys d ++ [k])%list.
Proof.
  unfold Dict.keys. induction d as [|[k0 v0] d IH].
  - by rewrite decide_False by apply not_elem_of_nil.
  - cbn [Dict.set]. destruct (decide (k0 = k)) as [->|Hk].
    + rewrite decide_True; [done | apply list_elem_of_here].
    + rewrite !fmap_cons, IH. destruct (decide (k ∈ d.*1)) as [Hin|Hin].
      * rewrite decide_True; [done | by apply list_elem_of_further].
      * rewrite decide_False; [done |].
        rewrite not_elem_of_cons. naive_solver.
Qed.

Lemma get_elem_of {V} k (v : V) d :
  Dict.wf d → (k, v) ∈ Dict.items d → Dict.get k d = Some v.
Proof.
  unfold Dict.wf, Dict.keys, Dict.items.
  induction d as [|[k0 v0] d IH]; [by intros _ ?%elem_of_nil |].
  rewrite fmap_cons, NoDup_cons. intros [Hk0 Hd] Hin. cbn [Dict.get].
  apply elem_of_cons in Hin as [[= -> ->]|Hin].
  - by rewrite decide_True.
  - rewrite decide_False, IH; [done | done | done |].
    intros ->. apply Hk0. apply list_elem_of_fmap. by exists (k, v).
Qed.

Lemma wf_empty {V} : Dict.wf (@Dict.empty V).
Proof. apply NoDup_nil_2. Qed.

Lemma wf_set {V} k (v : V) d : Dict.wf d → Dict.wf (Dict.set k v d).
Proof.
  unfold Dict.wf. rewrite keys_set. intros Hwf.
  destruct (decide (k ∈ Dict.keys d)) as [Hin|Hin]; [done |].
  apply NoDup_app. split_and!; [done | | apply NoDup_singleton].
  intros x Hx ->%list_elem_of_singleton. done.
Qed.

End DictFacts.

(** ** The aggregation: [_extract_problems] *)

Lemma get_add_problem_eq page problem articles :
  Dict.get page (add_problem page problem articles) =
  Some (default [] (Dict.get page articles) ++ [problem])%list.
Proof.
  unfold add_problem.
  destruct (Dict.get page articles); apply DictFacts.get_set_eq.
Qed.

Lemma get_add_problem_ne p page problem articles :
  p ≠ page →
  Dict.get page (add_problem p problem articles) = Dict.get page articles.
Proof.
  intros Hne. unfold add_problem.
  destruct (Dict.get p articles); by apply DictFacts.get_set_ne.
Qed.

Lemma wf_add_problem page problem articles :
  Dict.wf articles → Dict.wf (add_problem page problem articles).
Proof.
  intros Hwf. unfold add_problem.
  destruct (Dict.get page articles); by apply DictFacts.wf_set.
Qed.

Lemma keys_add_problem page problem articles :
  Dict.keys articles `prefix_of` Dict.keys (add_problem page problem articles).
Proof.
  unfold add_problem.
  destruct (Dict.get page articles); rewrite DictFacts.keys_set;
    case_decide; try done; by apply prefix_app_r.
Qed.

(** What [_extract_problems] does to the dictionary and to the world: it
    never raises, sends no query, keeps the keys distinct and in place, and
    appends to each page the problems its rows report. *)
Lemma extract_problems_run rows articles w :
  ∃ articles' logged,
    _extract_problems rows articles w
      = (Ok articles', World (queries w) (errors w ++ logged))
    ∧ (Dict.wf articles → Dict.wf articles')
    ∧ Dict.keys articles `prefix_of` Dict.keys articles'
    ∧ ∀ page,
        Dict.get page articles' =
        match labels_for page rows with
        | [] => Dict.get page articles
        | ls => Some (default [] (Dict.get page articles) ++ ls)%list
        end.
Proof.
  revert articles w.
  induction rows as [|item rows IH]; intros articles w.
  - exists articles, []. destruct w. rewrite app_nil_r. by split_and!.
  - cbn [_extract_problems labels_for omap list_omap].
    destruct (extract_row item) as [[p problem]|e] eqn:Hrow.
    + destruct (IH (add_problem p problem articles) w)
        as (articles' & logged & Hrun & Hwf & Hkeys & Hget).
      exists articles', logged. split_and!; [done | | |].
      * intros ?. by apply Hwf, wf_add_problem.
      * etrans; [apply keys_add_problem | done].
      * intros page. rewrite Hget. fold (labels_for page rows).
        destruct (decide (p = page)) as [->|Hne].
        -- rewrite get_add_problem_eq. cbn [default].
           destruct (labels_for page rows); [done |].
           unfold id. by rewrite <- app_assoc.
        -- by rewrite get_add_problem_ne.
    + unfold bind, logger_error.
      destruct (IH articles
                  (World (queries w)
                     (errors w ++
                      [LogError
                         "Failed to extract problem from query result: %s" e])))
        as (articles' & logged & Hrun & Hwf & Hkeys & Hget).
      eexists articles', (_ :: logged). cbn [queries errors] in Hrun.
      rewrite Hrun, <- app_assoc. by split_and!.
Qed.

(** C10. Whatever the rows and the dictionary handed in, [_extract_problems]
    returns a dictionary in which every page that was present keeps the
    problems it had, followed by those the rows report for it, and in which
    a page that no row reports has the entry (or no entry) it had before. *)
Theorem extract_problems_extends
  (rows : list row) (articles : Dict.t (list pyval)) (w : world) :
  ∃ articles' w',
    _extract_problems rows articles w = (Ok articles', w')
    ∧ Dict.keys articles `prefix_of` Dict.keys articles'
    ∧ (∀ page old,
         Dict.get page articles = Some old →
         Dict.get page articles' = Some (old ++ labels_for page rows)%list)
    ∧ (∀ page,
         (∀ item problem,
            item ∈ rows → extract_row item ≠ Ok (page, problem)) →
         Dict.get page articles' = Dict.get page articles).
Proof.
  destruct (extract_problems_run rows articles w)
    as (articles' & logged & Hrun & _ & Hkeys & Hget).
  exists articles', (World (queries w) (errors w ++ logged)).
  split_and!; [done | done | |].
  - intros page old Hold. rewrite Hget, Hold. cbn [default].
    destruct (labels_for page rows); [by rewrite app_nil_r | done].
  - intros page Hnone. rewrite Hget.
    replace (labels_for page rows) with (@nil pyval); [done |].
    symmetry. clear -Hnone. induction rows as [|item rows IH]; [done |].
    cbn [labels_for omap list_omap].
    destruct (extract_row item) as [[p problem]|e] eqn:Hrow.
    + destruct (decide (p = page)) as [->|Hne].
      * exfalso. eapply Hnone; [apply list_elem_of_here | done].
      * apply IH. intros ? ? ?. by apply Hnone, list_elem_of_further.
    + apply IH. intros ? ? ?. by apply Hnone, list_elem_of_further.
Qed.

(** ** The sample: [random.sample] *)

Module RandomFacts.

Lemma randbelow_lt d n : 0 < n → Random.randbelow d n < n.
Proof. intros. unfold Random.randbelow. apply Nat.mod_upper_bound. lia. Qed.

Lemma randbelow_small d n : d < n → Random.randbelow d n = d.
Proof. intros. unfold Random.randbelow. by apply Nat.mod_small. Qed.

Section Pool.

Context {A : Type}.
Implicit Types (pool population target : list A) (draws : list nat).

(** One round of the loop: the item taken and the slots still live
    afterwards are the slots that were live before. *)
Lemma take_step pool live j x y :
  j < live → live ≤ length pool →
  pool !! j = Some x → pool !! (live - 1) = Some y →
  take live pool ≡ₚ x :: take (live - 1) (<[j:=y]> pool).
Proof.
  intros Hj Hlive Hx Hy. destruct live as [|m]; [lia |].
  replace (S m - 1) with m in * by lia.
  rewrite (take_S_r _ _ _ Hy).
  destruct (decide (j = m)) as [->|Hne].
  - rewrite take_insert_ge by lia. assert (x = y) as -> by congruence.
    by rewrite Permutation_app_comm.
  - rewrite take_insert_lt by lia.
    assert (take m pool !! j = Some x) as Hx'
      by (rewrite lookup_take_lt by lia; done).
    rewrite insert_take_drop
      by (rewrite length_take; lia).
    rewrite <- (take_drop_middle _ _ _ Hx') at 1.
    rewrite Permutation_app_comm. simpl.
    rewrite <- !Permutation_middle. apply perm_swap.
Qed.

Lemma sample_loop_spec draws pool live k :
  k ≤ live → live ≤ length pool →
  length (Random.sample_loop draws pool live k) = k
  ∧ ∃ rest, Random.sample_loop draws pool live k ++ rest ≡ₚ take live pool.
Proof.
  revert draws pool live.
  induction k as [|k IH]; intros draws pool live Hk Hlive.
  - split; [done |]. by exists (take live pool).
  - cbn [Random.sample_loop].
    pose proof (randbelow_lt (hd 0 draws) live ltac:(lia)) as Hj.
    set (j := Random.randbelow (hd 0 draws) live) in *.
    destruct (lookup_lt_is_Some_2 pool j ltac:(lia)) as [x Hx].
    destruct (lookup_lt_is_Some_2 pool (live - 1) ltac:(lia)) as [y Hy].
    rewrite Hx, Hy.
    destruct (IH (tl draws) (<[j:=y]> pool) (live - 1)) as [Hlen [rest Hrest]];
      [lia | rewrite length_insert; lia |].
    split; [simpl; by rewrite Hlen |].
    exists rest. rewrite (take_step pool live j x y) by (done || lia).
    simpl. by rewrite Hrest.
Qed.

(** The loop treats the items as their positions in the population. *)
Lemma sample_loop_positions draws population pool (ipool : list nat) live k :
  Forall2 (fun x i => population !! i = Some x) pool ipool →
  Forall2 (fun x i => population !! i = Some x)
    (Random.sample_loop draws pool live k)
    (Random.sample_loop draws ipool live k).
Proof.
  revert draws pool ipool live.
  induction k as [|k IH]; intros draws pool ipool live Hpools; [constructor |].
  cbn [Random.sample_loop].
  set (j := Random.randbelow (hd 0 draws) live).
  pose proof (proj1 (Forall2_lookup _ _ _) Hpools j) as Hj.
  pose proof (proj1 (Forall2_lookup _ _ _) Hpools (live - 1)) as Hlast.
  destruct Hj as [x i Hxi|]; [| constructor].
  destruct Hlast as [y iy Hy|]; [| constructor].
  constructor; [done |]. apply IH. by apply Forall2_insert.
Qed.

Lemma pool_positions_spec draws population k :
  Forall2 (fun x i => population !! i = Some x)
    (Random.sample_loop draws population (length population) k)
    (pool_positions draws (length population) k).
Proof.
  apply sample_loop_positions. apply Forall2_same_length_lookup_2.
  - by rewrite length_seq.
  - intros i x j Hx [-> _]%lookup_seq. done.
Qed.

Lemma admissible_tail live k d draws :
  admissible live (S k) (d :: draws) →
  d < live ∧ admissible (live - 1) k draws.
Proof.
  intros [Hlen Hlt]. split; [| split].
  - specialize (Hlt 0 d eq_refl). lia.
  - simpl in Hlen. lia.
  - intros i d' Hd'. specialize (Hlt (S i) d' Hd'). lia.
Qed.

(** Different draws select differently. *)
Lemma sample_loop_inj pool live k draws draws' :
  NoDup (take live pool) → live ≤ length pool →
  admissible live k draws → admissible live k draws' →
  Random.sample_loop draws pool live k = Random.sample_loop draws' pool live k →
  draws = draws'.
Proof.
  revert draws draws' pool live.
  induction k as [|k IH]; intros draws draws' pool live Hnd Hlive Hd Hd' Heq.
  - destruct Hd as [Hd _], Hd' as [Hd' _].
    apply nil_length_inv in Hd, Hd'. congruence.
  - destruct draws as [|d draws]; [by destruct Hd |].
    destruct draws' as [|d' draws']; [by destruct Hd' |].
    apply admissible_tail in Hd as [Hlt Hd], Hd' as [Hlt' Hd'].
    cbn [Random.sample_loop hd tl] in Heq.
    rewrite !randbelow_small in Heq by done.
    destruct (lookup_lt_is_Some_2 pool d ltac:(lia)) as [x Hx].
    destruct (lookup_lt_is_Some_2 pool d' ltac:(lia)) as [x' Hx'].
    destruct (lookup_lt_is_Some_2 pool (live - 1) ltac:(lia)) as [y Hy].
    rewrite Hx, Hx', Hy in Heq. injection Heq as <- Heq.
    assert (d = d') as <-.
    { apply (NoDup_lookup (take live pool) d d' x Hnd);
        by rewrite lookup_take_lt. }
    f_equal. apply (IH _ _ (<[d:=y]> pool) (live - 1)); try done.
    + rewrite (take_step pool live d x y) in Hnd by (done || lia).
      by apply NoDup_cons in Hnd as [_ ?].
    + rewrite length_insert. lia.
Qed.

(** Every selection of distinct live items is the result of some draws. *)
Lemma sample_loop_surj pool live k target :
  NoDup (take live pool) → live ≤ length pool →
  length target = k → NoDup target →
  (∀ x, x ∈ target → x ∈ take live pool) →
  ∃ draws,
    admissible live k draws ∧ Random.sample_loop draws pool live k = target.
Proof.
  revert pool live target.
  induction k as [|k IH]; intros pool live target Hnd Hlive Hlen Hnt Hin.
  - apply nil_length_inv in Hlen as ->. exists []. split; [| done].
    split; [done |]. intros i d. by rewrite lookup_nil.
  - destruct target as [|x target]; [done |].
    apply NoDup_cons in Hnt as [Hx Hnt].
    destruct (proj1 (elem_of_take _ _ _) (Hin x (list_elem_of_here _ _)))
      as (j & Hj & Hlt).
    destruct (lookup_lt_is_Some_2 pool (live - 1) ltac:(lia)) as [y Hy].
    pose proof (take_step pool live j x y Hlt Hlive Hj Hy) as Hstep.
    destruct (IH (<[j:=y]> pool) (live - 1) target) as (draws & Hd & Hrun).
    + rewrite Hstep in Hnd. by apply NoDup_cons in Hnd as [_ ?].
    + rewrite length_insert. lia.
    + simpl in Hlen. lia.
    + done.
    + intros z Hz. specialize (Hin z (list_elem_of_further _ _ _ Hz)).
      rewrite Hstep in Hin. apply elem_of_cons in Hin as [->|?]; done.
    + exists (j :: draws). split.
      * destruct Hd as [Hdl Hdlt]. split; [simpl; lia |].
        intros [|i] d; simpl.
        -- intros [= <-]. lia.
        -- intros Hd. specialize (Hdlt i d Hd). lia.
      * cbn [Random.sample_loop hd tl].
        rewrite randbelow_small by done. by rewrite Hj, Hy, Hrun.
Qed.

End Pool.

(** What the draws of the pool strategy select is an arrangement of
    positions. *)
Lemma pool_positions_arrangement draws n k :
  k ≤ n → arrangement n k (pool_positions draws n k).
Proof.
  intros Hk. unfold pool_positions.
  destruct (sample_loop_spec draws (seq 0 n) n k) as [Hlen [rest Hrest]];
    [done | by rewrite length_seq |].
  rewrite take_ge in Hrest by (by rewrite length_seq).
  pose proof (NoDup_seq 0 n) as Hnd. rewrite <- Hrest in Hnd.
  apply NoDup_app in Hnd as (Hnd & _ & _).
  split_and!; [done | done |].
  intros i Hi.
  assert (i ∈ seq 0 n) as Hs by (rewrite <- Hrest, elem_of_app; by left).
  apply elem_of_seq in Hs. lia.
Qed.

(** The pool strategy is uniform: each arrangement of [k] positions is
    selected by exactly one of the equally likely lists of draws. *)
Lemma pool_positions_bijective n k positions :
  arrangement n k positions →
  ∃ draws,
    (admissible n k draws ∧ pool_positions draws n k = positions)
    ∧ ∀ draws',
        admissible n k draws' ∧ pool_positions draws' n k = positions →
        draws' = draws.
Proof.
  intros (Hlen & Hnd & Hlt).
  assert (NoDup (take n (seq 0 n))) as Hpool
    by (rewrite take_ge by (by rewrite length_seq); apply NoDup_seq).
  destruct (sample_loop_surj (seq 0 n) n k positions) as (draws & Hd & Hrun);
    [done | by rewrite length_seq | done | done | |].
  { intros i Hi. rewrite take_ge by (by rewrite length_seq).
    apply elem_of_seq. specialize (Hlt i Hi). lia. }
  exists draws. split; [done |]. intros draws' [Hd' Hrun'].
  apply (sample_loop_inj (seq 0 n) n k); try done.
  - by rewrite length_seq.
  - unfold pool_positions in Hrun'. congruence.
Qed.

(** *** The selection strategy *)

Lemma select_loop_done {A} draws (population : list A) n selected :
  Random.select_loop draws population n selected 0 = [].
Proof. by destruct draws. Qed.

Lemma unselected_repeat n d draws selected :
  Random.randbelow d n ∈ selected →
  unselected n (d :: draws) selected = unselected n draws selected.
Proof. unfold unselected. rewrite fmap_cons. simpl. set_solver. Qed.

Lemma unselected_fresh n d draws selected :
  Random.randbelow d n ∉ selected →
  size (unselected n (d :: draws) selected)
  = S (size (unselected n draws ({[ Random.randbelow d n ]} ∪ selected))).
Proof.
  intros Hj. unfold unselected. rewrite fmap_cons. simpl.
  set (j := Random.randbelow d n) in *.
  set (X := list_to_set _).
  assert (({[ j ]} ∪ X) ∖ selected = {[ j ]} ∪ X ∖ ({[ j ]} ∪ selected))
    as -> by (apply set_eq; intros x; destruct (decide (x = j)); set_solver).
  rewrite size_union by set_solver. by rewrite size_singleton.
Qed.

(** The loop completes the sample when the draws hold enough positions
    that are not selected yet. *)
Lemma select_loop_length {A} draws (population : list A) n selected k :
  0 < n → n ≤ length population →
  k ≤ size (unselected n draws selected) →
  length (Random.select_loop draws population n selected k) = k.
Proof.
  intros Hn Hpop. revert selected k.
  induction draws as [|d draws IH]; intros selected k Hk.
  - unfold unselected in Hk. simpl in Hk.
    assert ((∅ : gset nat) ∖ selected = ∅) as Hempty by set_solver.
    rewrite Hempty, size_empty in Hk.
    by assert (k = 0) as -> by lia.
  - destruct k as [|k]; [done |]. cbn [Random.select_loop].
    destruct (decide (Random.randbelow d n ∈ selected)) as [Hin|Hnin].
    + apply IH. by rewrite <- (unselected_repeat n d).
    + destruct (lookup_lt_is_Some_2 population (Random.randbelow d n))
        as [x ->]; [pose proof (randbelow_lt d n Hn); lia |].
      simpl. f_equal. apply IH.
      rewrite unselected_fresh in Hk by done. lia.
Qed.

(** Draws after those that complete the sample are not looked at. *)
Lemma select_loop_app {A} draws extra (population : list A) n selected k :
  length (Random.select_loop draws population n selected k) = k →
  Random.select_loop (draws ++ extra) population n selected k
  = Random.select_loop draws population n selected k.
Proof.
  revert selected k. induction draws as [|d draws IH]; intros selected k Hlen.
  - destruct k; [| done]. by rewrite !select_loop_done.
  - destruct k as [|k]; [done |]. cbn [Random.select_loop app] in *.
    destruct (decide (Random.randbelow d n ∈ selected)); [by apply IH |].
    destruct (population !! Random.randbelow d n); [| done].
    f_equal. apply IH. simpl in Hlen. lia.
Qed.

(** The loop treats the items as their positions in the population. *)
Lemma select_loop_positions {A} draws (population : list A) selected k :
  Forall2 (fun x i => population !! i = Some x)
    (Random.select_loop draws population (length population) selected k)
    (Random.select_loop draws (seq 0 (length population))
       (length population) selected k).
Proof.
  revert selected k. induction draws as [|d draws IH]; intros selected k.
  - destruct k; constructor.
  - destruct k as [|k]; [constructor |]. cbn [Random.select_loop].
    set (j := Random.randbelow d (length population)).
    destruct (decide (j ∈ selected)); [apply IH |].
    destruct (population !! j) as [x|] eqn:Hx.
    + pose proof (lookup_lt_Some _ _ _ Hx) as Hj.
      rewrite (lookup_seq_lt 0 _ j Hj). simpl.
      constructor; [done | apply IH].
    + apply lookup_ge_None in Hx.
      rewrite lookup_seq_ge by lia. constructor.
Qed.

(** The positions the loop selects are distinct, new, and positions of
    the population. *)
Lemma select_loop_arrangement draws n selected k :
  let positions := Random.select_loop draws (seq 0 n) n selected k in
  NoDup positions ∧ ∀ i, i ∈ positions → i < n ∧ i ∉ selected.
Proof.
  revert selected k. induction draws as [|d draws IH]; intros selected k.
  - destruct k; simpl; (split; [constructor | by intros i ?%elem_of_nil]).
  - destruct k as [|k];
      [simpl; split; [constructor | by intros i ?%elem_of_nil] |].
    cbn [Random.select_loop].
    set (j := Random.randbelow d n).
    destruct (decide (j ∈ selected)) as [Hin|Hnin]; [apply IH |].
    destruct (seq 0 n !! j) as [x|] eqn:Hx;
      [| split; [constructor | by intros i ?%elem_of_nil]].
    apply lookup_seq in Hx as [-> Hlt]. simpl in *.
    destruct (IH ({[ j ]} ∪ selected) k) as [Hnd Hfresh].
    split.
    + apply NoDup_cons. split; [| done].
      intros Hj. destruct (Hfresh j Hj) as [_ Hnew]. set_solver.
    + intros i [->|Hi]%elem_of_cons; [done |].
      destruct (Hfresh i Hi) as [? Hnew]. split; [done | set_solver].
Qed.

(** All positions are among the draws once [0, ..., n - 1] follows them. *)
Lemma unselected_all n draws :
  0 < n → n ≤ size (unselected n (draws ++ seq 0 n) ∅).
Proof.
  intros Hn. transitivity (size (list_to_set (seq 0 n) : gset nat)).
  { rewrite size_list_to_set by apply NoDup_seq. by rewrite length_seq. }
  apply subseteq_size. intros i Hi%elem_of_list_to_set.
  unfold unselected. apply elem_of_difference. split; [| set_solver].
  apply elem_of_list_to_set, list_elem_of_fmap. exists i. split.
  - apply elem_of_seq in Hi. symmetry. apply randbelow_small. lia.
  - apply elem_of_app. by right.
Qed.

Lemma lookup_all {A} (pre population : list A) :
  omap (fun i => (pre ++ population) !! i)
    (seq (length pre) (length population)) = population.
Proof.
  revert pre. induction population as [|x population IH]; intros pre; [done |].
  cbn [length seq]. change (omap ?f (?i :: ?l))
    with (match f i with Some y => y :: omap f l | None => omap f l end).
  cbv beta. rewrite list_lookup_middle by done. f_equal.
  specialize (IH (pre ++ [x])).
  rewrite <- (assoc_L (++)), length_app in IH. simpl in IH.
  by rewrite Nat.add_1_r in IH.
Qed.

(** Items at distinct positions are part of the population. *)
Lemma distinct_positions {A} (population selected : list A) positions :
  Forall2 (fun x i => population !! i = Some x) selected positions →
  NoDup positions →
  ∃ rest, selected ++ rest ≡ₚ population.
Proof.
  intros Hsel Hnd.
  assert (selected = omap (fun i => population !! i) positions) as ->.
  { induction Hsel as [|x i selected positions Hx _ IH]; [done |].
    apply NoDup_cons in Hnd as [_ Hnd]. simpl. rewrite Hx. f_equal. by apply IH. }
  assert (positions ⊆+ seq 0 (length population)) as Hsub.
  { apply NoDup_submseteq; [done |]. intros i Hi. apply elem_of_seq.
    apply list_elem_of_lookup in Hi as [m Hm].
    destruct (Forall2_lookup_r _ _ _ _ _ Hsel Hm) as (x & _ & Hx).
    apply lookup_lt_Some in Hx. lia. }
  apply submseteq_Permutation in Hsub as [others Hothers].
  exists (omap (fun i => population !! i) others).
  rewrite <- omap_app, <- Hothers.
  pose proof (lookup_all [] population) as Hall. simpl in Hall.
  by rewrite Hall.
Qed.

(** What the draws select is an arrangement of positions. *)
Lemma sample_positions_arrangement draws n k :
  k ≤ n → arrangement n k (sample_positions draws n k).
Proof.
  intros Hk. unfold sample_positions.
  destruct (decide (n ≤ Random.setsize k));
    [by apply pool_positions_arrangement |].
  unfold select_positions.
  destruct (select_loop_arrangement (draws ++ seq 0 n) n ∅ k) as [Hnd Hlt].
  split_and!; [| done | by intros i [? _]%Hlt].
  destruct k as [|k]; [by rewrite select_loop_done |].
  apply select_loop_length; [lia | by rewrite length_seq |].
  pose proof (unselected_all n draws ltac:(lia)). lia.
Qed.

(** [random.sample] of a sequence returns, and without replacement: the
    [k] items of the sample together with the items left over are the
    population; the sample holds the items at the selected positions. *)
Lemma sample_sequence_spec {A} draws (population : list A) k :
  k ≤ length population →
  ∃ selected rest,
    Random.sample_sequence draws population k = Ok selected
    ∧ length selected = k
    ∧ selected ++ rest ≡ₚ population
    ∧ Forall2 (fun x i => population !! i = Some x) selected
        (sample_positions draws (length population) k).
Proof.
  intros Hk. unfold Random.sample_sequence, sample_positions.
  rewrite decide_True by done.
  destruct (decide (length population ≤ Random.setsize k)) as [Hpool|Hsel].
  - destruct (sample_loop_spec draws population (length population) k)
      as [Hlen [rest Hrest]]; [done | done |].
    rewrite take_ge in Hrest by done. eexists _, rest.
    split_and!; [done | done | done | apply pool_positions_spec].
  - pose proof (select_loop_positions (draws ++ seq 0 (length population))
                  population ∅ k) as Hpos.
    pose proof (sample_positions_arrangement draws (length population) k Hk)
      as (Hlen & Hnd & _).
    unfold sample_positions in Hlen, Hnd.
    rewrite decide_False in Hlen, Hnd by done.
    destruct (distinct_positions _ _ _ Hpos Hnd) as [rest Hrest].
    eexists _, rest. split_and!; [done | | done | done].
    by rewrite (Forall2_length _ _ _ Hpos).
Qed.

(** When the draws given complete the selection, no draw is made up. *)
Lemma sample_positions_select draws n k :
  Random.setsize k < n →
  length (select_positions draws n k) = k →
  sample_positions draws n k = select_positions draws n k.
Proof.
  intros Hn Hlen. unfold sample_positions.
  rewrite decide_False by lia. by apply select_loop_app.
Qed.

Lemma swap_involutive a b x : swap a b (swap a b x) = x.
Proof. unfold swap. repeat case_decide; congruence. Qed.

Lemma swap_lt a b n x : a < n → b < n → swap a b x < n ↔ x < n.
Proof. intros. unfold swap. repeat case_decide; subst; lia. Qed.

Lemma relabel_inverse p q x :
  (relabel p q).2 ((relabel p q).1 x) = x
  ∧ (relabel p q).1 ((relabel p q).2 x) = x.
Proof.
  revert q x. induction p as [|a p IH]; intros q x; [done |].
  destruct q as [|b q]; [done |]. simpl.
  specialize (IH q). destruct (relabel p q) as [f g]. simpl in *.
  split.
  - rewrite swap_involutive. apply IH.
  - rewrite (proj2 (IH _)). apply swap_involutive.
Qed.

Lemma relabel_lt n p q x :
  (∀ i, i ∈ p → i < n) → (∀ i, i ∈ q → i < n) →
  (relabel p q).1 x < n ↔ x < n.
Proof.
  revert q x. induction p as [|a p IH]; intros q x Hp Hq; [done |].
  destruct q as [|b q]; [done |]. simpl.
  assert (∀ y, (relabel p q).1 y < n ↔ y < n) as IH'.
  { intros y. apply IH; intros i Hi; [apply Hp | apply Hq];
      by apply list_elem_of_further. }
  destruct (relabel p q) as [f g]. simpl in *.
  rewrite swap_lt; [apply IH' | |].
  - apply IH', Hp, list_elem_of_here.
  - apply Hq, list_elem_of_here.
Qed.

Lemma relabel_fmap p q :
  NoDup p → NoDup q → length p = length q → (relabel p q).1 <$> p = q.
Proof.
  revert q. induction p as [|a p IH]; intros q Hp Hq Hlen.
  - by destruct q.
  - destruct q as [|b q]; [done |].
    apply NoDup_cons in Hp as [Ha Hp], Hq as [Hb Hq].
    injection Hlen as Hlen. specialize (IH q Hp Hq Hlen).
    pose proof (relabel_inverse p q) as Hinv. simpl.
    destruct (relabel p q) as [f g]. simpl in *.
    f_equal.
    + unfold swap. by rewrite decide_True.
    + rewrite <- IH at 1. apply list_fmap_ext. intros m x Hx.
      assert (x ∈ p) as Hxp by (by eapply list_elem_of_lookup_2).
      unfold swap. rewrite decide_False.
      * rewrite decide_False; [done |]. intros Heq. apply Hb.
        rewrite <- Heq, <- IH. by apply list_elem_of_fmap_2.
      * intros Heq. apply Ha.
        assert (x = a) as <-; [| done].
        rewrite <- (proj1 (Hinv x)), Heq. apply Hinv.
Qed.

(** Renaming the positions in the draws renames the selection. *)
Lemma select_loop_relabel (f g : nat → nat) n draws selected k :
  (∀ x, g (f x) = x) → (∀ x, f x < n ↔ x < n) →
  Forall (fun d => d < n) draws →
  Random.select_loop (f <$> draws) (seq 0 n) n (set_map f selected) k
  = f <$> Random.select_loop draws (seq 0 n) n selected k.
Proof.
  intros Hinv Hlt Hdraws. revert selected k.
  induction Hdraws as [|d draws Hd _ IH]; intros selected k.
  - by destruct k.
  - destruct k as [|k]; [done |]. cbn [Random.select_loop fmap list_fmap].
    rewrite (randbelow_small d n Hd).
    rewrite (randbelow_small (f d) n) by (by apply Hlt).
    assert (f d ∈ (set_map f selected : gset nat) ↔ d ∈ selected) as Hmem.
    { rewrite elem_of_map. split; [| by exists d].
      intros (y & Heq & Hy). apply (f_equal g) in Heq.
      rewrite !Hinv in Heq. by subst. }
    destruct (decide (d ∈ selected)) as [Hin|Hnin].
    + rewrite decide_True by (by apply Hmem). apply IH.
    + rewrite decide_False by (by rewrite Hmem).
      rewrite !lookup_seq_lt by (done || by apply Hlt). simpl.
      f_equal.
      rewrite <- IH. by rewrite set_map_union_L, set_map_singleton_L.
Qed.

(** The selection strategy is uniform: for two arrangements of [k]
    positions there is a renaming of the positions, one-to-one on the
    positions below [n], such that the draws that select the first are,
    renamed, the draws that select the second. The renaming of the draws is
    one-to-one on the lists of draws of each length, which the generator
    hands out with the same probability. *)
Lemma select_positions_symmetric n k p q :
  arrangement n k p → arrangement n k q →
  ∃ f g : nat → nat,
    (∀ x, g (f x) = x ∧ f (g x) = x)
    ∧ (∀ x, f x < n ↔ x < n)
    ∧ ∀ draws,
        Forall (fun d => d < n) draws →
        select_positions draws n k = p
        ↔ select_positions (f <$> draws) n k = q.
Proof.
  intros (Hlp & Hnp & Hp) (Hlq & Hnq & Hq).
  exists (relabel p q).1, (relabel p q).2.
  pose proof (relabel_inverse p q) as Hinv.
  pose proof (fun x => relabel_lt n p q x Hp Hq) as Hlt.
  pose proof (relabel_fmap p q Hnp Hnq ltac:(congruence)) as Hpq.
  split_and!; [done | done |].
  intros draws Hdraws. unfold select_positions.
  pose proof (select_loop_relabel _ _ n draws ∅ k
                (fun x => proj1 (Hinv x)) Hlt Hdraws) as Hrun.
  rewrite set_map_empty in Hrun. rewrite Hrun. split; [by intros -> |].
  intros Heq.
  assert (∀ l : list nat, (relabel p q).2 <$> ((relabel p q).1 <$> l) = l)
    as Hcancel.
  { intros l. rewrite <- list_fmap_compose. rewrite <- (list_fmap_id l) at 2.
    apply list_fmap_ext. intros _ x _. apply Hinv. }
  rewrite <- (Hcancel p), <- (Hcancel (Random.select_loop _ _ _ _ _)).
  f_equal. by rewrite Heq.
Qed.

End RandomFacts.

(** ** Sets in the order of their hash *)

Lemma py_list_Permutation `{Countable A} (h : A → N) (s : gset A) :
  py_list h s ≡ₚ elements s.
Proof. apply merge_sort_Permutation. Qed.

Lemma NoDup_py_list `{Countable A} (h : A → N) (s : gset A) :
  NoDup (py_list h s).
Proof. rewrite py_list_Permutation. apply NoDup_elements. Qed.

Lemma elem_of_py_list `{Countable A} (h : A → N) (s : gset A) x :
  x ∈ py_list h s ↔ x ∈ s.
Proof. rewrite py_list_Permutation. apply elem_of_elements. Qed.

Lemma py_list_hash_irrelevant `{Countable A} (h h' : A → N) (s : gset A) :
  py_list h s ≡ₚ py_list h' s.
Proof. by rewrite !py_list_Permutation. Qed.

(** ** The sampler: lines 176-183 of [_find_tagged_articles] *)

Lemma page_page_entry hash (items : list (string * list pyval)) :
  page <$> (page_entry hash <$> items) = items.*1.
Proof.
  rewrite <- list_fmap_compose. apply list_fmap_ext. by intros _ [p l] _.
Qed.

Lemma NoDup_problems_page_entry hash item :
  NoDup (problems (page_entry hash item)).
Proof. destruct item as [p l]. apply NoDup_py_list. Qed.

Lemma elem_of_problems_page_entry hash p l x :
  x ∈ problems (page_entry hash (p, l)) ↔ x ∈ l.
Proof. simpl. rewrite elem_of_py_list. apply elem_of_list_to_set. Qed.

(** The branches of the sampler. *)
Lemma finalize_all hash draws views articles :
  length (Dict.items articles) ≤ NUM →
  finalize hash draws views articles
  = Ok (page_entry hash <$> Dict.items articles, false).
Proof.
  intros Hn. unfold finalize.
  by rewrite (proj2 (Nat.ltb_ge _ _) Hn).
Qed.

Lemma finalize_sampled hash draws articles :
  NUM < length (Dict.items articles) →
  ∃ selected rest,
    finalize hash draws true articles = Ok (page_entry hash <$> selected, true)
    ∧ length selected = NUM
    ∧ selected ++ rest ≡ₚ Dict.items articles
    ∧ Forall2 (fun x i => Dict.items articles !! i = Some x) selected
        (sample_positions draws (length (Dict.items articles)) NUM).
Proof.
  intros Hn. unfold finalize.
  rewrite (proj2 (Nat.ltb_lt _ _) Hn). unfold Random.sample.
  destruct (RandomFacts.sample_sequence_spec draws (Dict.items articles) NUM)
    as (selected & rest & Hrun & Hlen & Hperm & Hpos); [lia |].
  exists selected, rest. by rewrite Hrun.
Qed.

Lemma finalize_refused hash draws articles :
  NUM < length (Dict.items articles) →
  finalize hash draws false articles = Raised TypeError.
Proof.
  intros Hn. unfold finalize. by rewrite (proj2 (Nat.ltb_lt _ _) Hn).
Qed.

(** C1, on the code. For a dictionary of more than [NUM] pages ([NUM]
    is 10) the sampler hands the view of the dictionary to [random.sample].
    Where the interpreter refuses the view (Python 3.11 and later), the
    sampler raises [TypeError]: no list and no flag are returned. Where the
    interpreter samples the view, [NUM] entries are returned with the flag
    [true]. *)
Theorem finalize_view_refused
  (hash : pyval → N) (draws : list nat) (views : bool)
  (articles : Dict.t (list pyval)) :
  NUM < length (Dict.items articles) →
  (views = false → finalize hash draws views articles = Raised TypeError)
  ∧ (views = true →
     ∃ res,
       finalize hash draws views articles = Ok (res, true)
       ∧ length res = NUM).
Proof.
  intros Hn. split; intros ->.
  - unfold finalize. by rewrite (proj2 (Nat.ltb_lt _ _) Hn).
  - destruct (finalize_sampled hash draws articles Hn)
      as (selected & rest & Hrun & Hlen & _).
    eexists. split; [done |]. by rewrite length_fmap.
Qed.

(** X17. The sampler on every interpreter. For a dictionary of [n] pages:
    up to [NUM] pages ([NUM] is 10) all items are returned, in the order
    of the dictionary, with the flag [false]. Above, an interpreter that
    refuses the view raises [TypeError]; one that samples it returns
    [NUM] entries and the flag [true], and the entries are those of a
    selection of the items which, with the items left over, makes up the
    dictionary: no item is taken twice. The selection holds the items at
    the positions the draws select, and these are distinct. The sample is
    uniform. Up to [setsize] pages (85), each choice of [NUM] distinct
    positions comes from exactly one of the equally likely lists of draws
    of the pool strategy. Above, the positions are those the selection
    strategy takes from the draws when these complete the sample, and for
    two choices of [NUM] distinct positions a renaming of the positions,
    one-to-one below [n], turns the draws selecting the first into the
    draws selecting the second. *)
Theorem finalize_sample
  (hash : pyval → N) (draws : list nat) (views : bool)
  (articles : Dict.t (list pyval)) :
  let items := Dict.items articles in
  let n := length items in
  (n ≤ NUM →
   finalize hash draws views articles = Ok (page_entry hash <$> items, false))
  ∧ (NUM < n → views = false →
     finalize hash draws views articles = Raised TypeError)
  ∧ (NUM < n → views = true →
     ∃ selected rest,
       finalize hash draws views articles
       = Ok (page_entry hash <$> selected, true)
       ∧ length (page_entry hash <$> selected) = NUM
       ∧ selected ++ rest ≡ₚ items
       ∧ Forall2 (fun x i => items !! i = Some x) selected
           (sample_positions draws n NUM)
       ∧ arrangement n NUM (sample_positions draws n NUM))
  ∧ (NUM < n → n ≤ Random.setsize NUM →
     sample_positions draws n NUM = pool_positions draws n NUM
     ∧ ∀ positions,
         arrangement n NUM positions →
         ∃ d,
           (admissible n NUM d ∧ pool_positions d n NUM = positions)
           ∧ ∀ d',
               admissible n NUM d' ∧ pool_positions d' n NUM = positions →
               d' = d)
  ∧ (Random.setsize NUM < n →
     (length (select_positions draws n NUM) = NUM →
      sample_positions draws n NUM = select_positions draws n NUM)
     ∧ ∀ p q,
         arrangement n NUM p → arrangement n NUM q →
         ∃ f g : nat → nat,
           (∀ x, g (f x) = x ∧ f (g x) = x)
           ∧ (∀ x, f x < n ↔ x < n)
           ∧ ∀ d,
               Forall (fun j => j < n) d →
               select_positions d n NUM = p
               ↔ select_positions (f <$> d) n NUM = q).
Proof.
  intros items n. refine (conj _ (conj _ (conj _ (conj _ _)))).
  - apply finalize_all.
  - intros Hn ->. by apply finalize_refused.
  - intros Hn ->.
    destruct (finalize_sampled hash draws articles Hn)
      as (selected & rest & Hrun & Hlen & Hperm & Hpos).
    exists selected, rest. rewrite length_fmap.
    split_and!; [done | done | done | done |].
    apply RandomFacts.sample_positions_arrangement. fold items n. lia.
  - intros _ Hpool. split.
    + unfold sample_positions. by rewrite decide_True.
    + apply RandomFacts.pool_positions_bijective.
  - intros Hsel. split.
    + by apply RandomFacts.sample_positions_select.
    + apply RandomFacts.select_positions_symmetric.
Qed.

(** ** The aggregation of the two sources: [_find_tagged_articles] *)

Lemma labels_for_app page rows1 rows2 :
  labels_for page (rows1 ++ rows2)
  = labels_for page rows1 ++ labels_for page rows2.
Proof. unfold labels_for. apply omap_app. Qed.

(** A request that returns got rows for both queries; what it returns is
    the sample of the dictionary that maps each page to the problems the
    rows of the first and then of the second source report for it. *)
Lemma find_tagged_articles_run svc hash draws views categories w res more w' :
  _find_tagged_articles svc hash draws views categories w = (Ok (res, more), w') →
  ∃ rows1 rows2 articles,
    svc (length (queries w))
      (ArticlesQuery (Str.join "|" categories) TAGS) = Rows rows1
    ∧ svc (S (length (queries w)))
        (IabotQuery (Str.join "|" categories) IABOT_CATS) = Rows rows2
    ∧ Dict.wf articles
    ∧ (∀ page,
         Dict.get page articles =
         match labels_for page (rows1 ++ rows2) with
         | [] => None
         | ls => Some ls
         end)
    ∧ finalize hash draws views articles = Ok (res, more).
Proof.
  unfold _find_tagged_articles, bind, execute, lift.
  destruct (svc (length (queries w)) _) as [| |rows1] eqn:Hq1;
    cbn [fetchall]; try discriminate.
  destruct (extract_problems_run rows1 Dict.empty
              (World (queries w ++ [ArticlesQuery (Str.join "|" categories) TAGS])
                 (errors w)))
    as (articles1 & logged1 & Hrun1 & Hwf1 & _ & Hget1).
  rewrite Hrun1. cbn [queries errors]. rewrite length_app, Nat.add_1_r.
  destruct (svc (S (length (queries w))) _) as [| |rows2] eqn:Hq2;
    cbn [fetchall]; try discriminate.
  match goal with
  | |- context [_extract_problems rows2 articles1 ?w1] =>
      destruct (extract_problems_run rows2 articles1 w1)
        as (articles2 & logged2 & Hrun2 & Hwf2 & _ & Hget2)
  end.
  rewrite Hrun2. intros [= Hfin _].
  exists rows1, rows2, articles2. split_and!; try done.
  - apply Hwf2, Hwf1, DictFacts.wf_empty.
  - intros page. rewrite Hget2, Hget1, labels_for_app. cbn [Dict.get Dict.empty].
    destruct (labels_for page rows1), (labels_for page rows2); try done.
    by rewrite app_nil_r.
Qed.

Section Results.

Context (svc : service) (hash : pyval → N) (draws : list nat) (views : bool).

(** The entries of a sample are entries of items of the dictionary, and
    their pages are as distinct as its keys. *)
Lemma finalize_entries articles res more :
  finalize hash draws views articles = Ok (res, more) →
  ∃ selected rest,
    res = page_entry hash <$> selected
    ∧ selected ++ rest ≡ₚ Dict.items articles.
Proof.
  intros Hfin.
  destruct (decide (length (Dict.items articles) ≤ NUM)) as [Hle|Hgt].
  - rewrite finalize_all in Hfin by done. injection Hfin as <- <-.
    exists (Dict.items articles), []. by rewrite app_nil_r.
  - destruct views; [| by rewrite finalize_refused in Hfin by lia].
    destruct (finalize_sampled hash draws articles)
      as (selected & rest & Hrun & _ & Hperm & _); [lia |].
    rewrite Hrun in Hfin. injection Hfin as <- <-. by exists selected, rest.
Qed.

(** C9. In the list [_find_tagged_articles] returns no page occurs
    twice: the rows of a page, of the first source and of the second, are
    merged into its one entry, whose problems are those the rows report for
    the page. *)
Theorem find_tagged_articles_pages_distinct
  (categories : list string) (w w' : world)
  (res : list page_result) (more : bool) :
  _find_tagged_articles svc hash draws views categories w = (Ok (res, more), w') →
  NoDup (page <$> res)
  ∧ ∃ rows1 rows2,
      svc (length (queries w))
        (ArticlesQuery (Str.join "|" categories) TAGS) = Rows rows1
      ∧ svc (S (length (queries w)))
          (IabotQuery (Str.join "|" categories) IABOT_CATS) = Rows rows2
      ∧ ∀ r x,
          r ∈ res →
          x ∈ problems r ↔ x ∈ labels_for (page r) (rows1 ++ rows2).
Proof.
  intros (rows1 & rows2 & articles & Hq1 & Hq2 & Hwf & Hget & Hfin)
    %find_tagged_articles_run.
  apply finalize_entries in Hfin as (selected & rest & -> & Hperm).
  split.
  - rewrite page_page_entry.
    unfold Dict.wf, Dict.keys, Dict.items in *.
    rewrite <- Hperm, fmap_app in Hwf.
    by apply NoDup_app in Hwf as (? & _ & _).
  - exists rows1, rows2. split_and!; [done | done |].
    intros r x ([p l] & -> & Hin)%list_elem_of_fmap.
    rewrite elem_of_problems_page_entry. cbn [page page_entry].
    assert ((p, l) ∈ Dict.items articles) as Hitem
      by (rewrite <- Hperm, elem_of_app; by left).
    apply (DictFacts.get_elem_of _ _ _ Hwf) in Hitem.
    rewrite Hget in Hitem.
    destruct (labels_for p (rows1 ++ rows2)); [done |].
    by injection Hitem as <-.
Qed.

(** C3. In the list [_find_tagged_articles] returns no entry names a
    problem twice, whatever the rows of the two sources repeat. *)
Theorem find_tagged_articles_problems_distinct
  (categories : list string) (w w' : world)
  (res : list page_result) (more : bool) :
  _find_tagged_articles svc hash draws views categories w = (Ok (res, more), w') →
  Forall (fun r => NoDup (problems r)) res.
Proof.
  intros (rows1 & rows2 & articles & _ & _ & _ & _ & Hfin)
    %find_tagged_articles_run.
  apply finalize_entries in Hfin as (selected & rest & -> & _).
  apply Forall_fmap, Forall_forall. intros item _.
  apply NoDup_problems_page_entry.
Qed.

End Results.

(** C8. On a dictionary of at most [NUM] pages the sampler always
    returns the same pages, in the same order, each with the same problems
    once; only their order can differ, with the hash. Under one hash the
    two results are the same, whatever the draws and the interpreter. *)
Theorem finalize_idempotent
  (hash1 hash2 : pyval → N) (draws1 draws2 : list nat) (views1 views2 : bool)
  (articles : Dict.t (list pyval)) :
  length (Dict.items articles) ≤ NUM →
  ∃ res1 res2,
    finalize hash1 draws1 views1 articles = Ok (res1, false)
    ∧ finalize hash2 draws2 views2 articles = Ok (res2, false)
    ∧ Forall2
        (fun r1 r2 => page r1 = page r2 ∧ problems r1 ≡ₚ problems r2)
        res1 res2
    ∧ finalize hash1 draws2 views2 articles = Ok (res1, false).
Proof.
  intros Hn. eexists _, _. rewrite !finalize_all by done.
  split_and!; [done | done | | done].
  apply Forall2_fmap, Forall_Forall2_diag, Forall_forall.
  intros [p l] _. split; [done |]. apply py_list_hash_irrelevant.
Qed.

(** ** The expansion: [_find_all_subcategories] *)

Section Expansion.

Context (svc : service).

Lemma find_all_subcategories_unfold categories tree depth :
  _find_all_subcategories svc categories tree depth =
  if decide (MAX_DEPTH ≤ depth) then ret tree
  else
    let frontier := filter (fun cat => no_colon cat = true) categories in
    if decide (frontier = []) then ret tree
    else
      bind (execute svc (SubcategoryQuery frontier)) (fun cursor =>
      bind (read_subcategories cursor) (fun subcategories =>
        _find_all_subcategories svc subcategories
          (tree ∪ list_to_set subcategories) (depth + 1))).
Proof.
  simp _find_all_subcategories.
  destruct (decide (MAX_DEPTH ≤ depth)); reflexivity.
Qed.

Lemma read_subcategories_run cursor w :
  read_subcategories cursor w
  = (Ok (subcategories_of cursor),
     World (queries w) (errors w ++ subcategories_log cursor)).
Proof.
  unfold read_subcategories, try_except, lift, subcategories_of,
    subcategories_log, bind, logger_error, ret.
  destruct (titles_of cursor); [| done].
  destruct w. by rewrite app_nil_r.
Qed.

(** A call of [_find_all_subcategories]: the batches it sends, one per
    level from [depth] up to [MAX_DEPTH], form a chain of frontiers; it
    returns a superset of its set, and raises only where the database lets
    a query fail. *)
Lemma find_all_subcategories_run depth :
  ∀ categories tree w,
  ∃ batches logged r,
    _find_all_subcategories svc categories tree depth w
    = (r, World (queries w ++ (SubcategoryQuery <$> batches))
            (errors w ++ logged))
    ∧ length batches ≤ MAX_DEPTH - depth
    ∧ frontier_chain svc (length (queries w))
        (filter (fun cat => no_colon cat = true) categories) batches
    ∧ (batches = [] →
       MAX_DEPTH ≤ depth
       ∨ filter (fun cat => no_colon cat = true) categories = [])
    ∧ match r with
      | Ok tree' => tree ⊆ tree'
      | Raised e =>
          e = DatabaseError
          ∧ ∃ i b, batches !! i = Some b
                   ∧ svc (length (queries w) + i) (SubcategoryQuery b)
                     = QueryFails
      end.
Proof.
  remember (MAX_DEPTH - depth) as m eqn:Hm.
  revert depth Hm.
  induction m as [|m IH]; intros depth Hm categories tree w;
    rewrite find_all_subcategories_unfold.
  { rewrite decide_True by lia.
    exists [], [], (Ok tree). destruct w. rewrite !app_nil_r.
    split5; [done | simpl; lia | done | intros _; left; lia | done]. }
  rewrite decide_False by lia. cbv zeta.
  set (frontier := filter (fun cat => no_colon cat = true) categories).
  destruct (decide (frontier = [])) as [Hnil|Hne].
  { exists [], [], (Ok tree). destruct w. rewrite !app_nil_r.
    split5; [done | simpl; lia | done | by right | done]. }
  unfold bind at 1. unfold execute.
  destruct (svc (length (queries w)) (SubcategoryQuery frontier))
    as [| |rows] eqn:Hsvc.
  - exists [frontier], [], (Raised DatabaseError). rewrite app_nil_r.
    split5; [done | simpl; lia | done | done |].
    split; [done |]. exists 0, frontier. by rewrite Nat.add_0_r.
  - unfold bind. rewrite read_subcategories_run. cbn [queries errors].
    destruct (IH (depth + 1) ltac:(lia) (subcategories_of FetchFails)
                (tree ∪ list_to_set (subcategories_of FetchFails))
                (World (queries w ++ [SubcategoryQuery frontier])
                   (errors w ++ subcategories_log FetchFails)))
      as (batches & logged & r & Hrun & Hlen & Hchain & _ & Hr).
    cbn [queries errors] in Hrun, Hchain, Hr.
    rewrite length_app, Nat.add_1_r in Hchain, Hr.
    exists (frontier :: batches), (subcategories_log FetchFails ++ logged), r.
    rewrite Hrun, fmap_cons, <- !app_assoc.
    split5; [done | simpl; lia | | done |].
    + cbn [frontier_chain]. by rewrite Hsvc.
    + destruct r as [tree'|e]; [set_solver |].
      destruct Hr as (-> & i & b & Hb & Hq). split; [done |].
      exists (S i), b. by rewrite Nat.add_succ_r.
  - unfold bind. rewrite read_subcategories_run. cbn [queries errors].
    destruct (IH (depth + 1) ltac:(lia) (subcategories_of (Rows rows))
                (tree ∪ list_to_set (subcategories_of (Rows rows)))
                (World (queries w ++ [SubcategoryQuery frontier])
                   (errors w ++ subcategories_log (Rows rows))))
      as (batches & logged & r & Hrun & Hlen & Hchain & _ & Hr).
    cbn [queries errors] in Hrun, Hchain, Hr.
    rewrite length_app, Nat.add_1_r in Hchain, Hr.
    exists (frontier :: batches), (subcategories_log (Rows rows) ++ logged), r.
    rewrite Hrun, fmap_cons, <- !app_assoc.
    split5; [done | simpl; lia | | done |].
    + cbn [frontier_chain]. by rewrite Hsvc.
    + destruct r as [tree'|e]; [set_solver |].
      destruct Hr as (-> & i & b & Hb & Hq). split; [done |].
      exists (S i), b. by rewrite Nat.add_succ_r.
Qed.

(** Which batches a call sends: the first is the frontier of the call,
    sent when [depth] is below [MAX_DEPTH] and the frontier is not empty;
    the batch after batch [i] is what the database answered to it, without
    the identifiers that contain a colon, sent when the query did not fail,
    the next level is below [MAX_DEPTH] and that frontier is not empty. *)
Lemma find_all_subcategories_successors depth :
  ∀ categories tree w,
  ∃ batches,
    queries (_find_all_subcategories svc categories tree depth w).2
    = queries w ++ (SubcategoryQuery <$> batches)
    ∧ batches !! 0
      = (let frontier := filter (fun cat => no_colon cat = true) categories in
         if decide (depth < MAX_DEPTH ∧ frontier ≠ []) then Some frontier
         else None)
    ∧ ∀ i b,
        batches !! i = Some b →
        batches !! S i
        = match svc (length (queries w) + i) (SubcategoryQuery b) with
          | QueryFails => None
          | (FetchFails | Rows _) as cursor =>
              let next := filter (fun cat => no_colon cat = true)
                            (subcategories_of cursor) in
              if decide (depth + S i < MAX_DEPTH ∧ next ≠ []) then Some next
              else None
          end.
Proof.
  remember (MAX_DEPTH - depth) as m eqn:Hm.
  revert depth Hm.
  induction m as [|m IH]; intros depth Hm categories tree w;
    rewrite find_all_subcategories_unfold.
  { rewrite decide_True by lia. exists []. cbn [ret snd fmap list_fmap].
    rewrite app_nil_r. split_and!; [done | | intros i b; by rewrite lookup_nil].
    cbv zeta. rewrite decide_False; [done | lia]. }
  rewrite decide_False by lia. cbv zeta.
  set (frontier := filter (fun cat => no_colon cat = true) categories).
  destruct (decide (frontier = [])) as [Hnil|Hne].
  { exists []. cbn [ret snd fmap list_fmap].
    rewrite app_nil_r. split_and!; [done | | intros i b; by rewrite lookup_nil].
    rewrite decide_False; [done | tauto]. }
  assert (∀ cursor w1 batches',
    svc (length (queries w)) (SubcategoryQuery frontier) = cursor →
    cursor ≠ QueryFails →
    queries w1 = queries w ++ [SubcategoryQuery frontier] →
    batches' !! 0
    = (let next := filter (fun cat => no_colon cat = true)
                     (subcategories_of cursor) in
       if decide (depth + 1 < MAX_DEPTH ∧ next ≠ []) then Some next
       else None) →
    (∀ i b,
       batches' !! i = Some b →
       batches' !! S i
       = match svc (length (queries w1) + i) (SubcategoryQuery b) with
         | QueryFails => None
         | (FetchFails | Rows _) as cursor =>
             let next := filter (fun cat => no_colon cat = true)
                           (subcategories_of cursor) in
             if decide (depth + 1 + S i < MAX_DEPTH ∧ next ≠ []) then Some next
             else None
         end) →
    (frontier :: batches') !! 0 = (if decide (depth < MAX_DEPTH ∧ frontier ≠ [])
                                   then Some frontier else None)
    ∧ ∀ i b,
        (frontier :: batches') !! i = Some b →
        (frontier :: batches') !! S i
        = match svc (length (queries w) + i) (SubcategoryQuery b) with
          | QueryFails => None
          | (FetchFails | Rows _) as cursor =>
              let next := filter (fun cat => no_colon cat = true)
                            (subcategories_of cursor) in
              if decide (depth + S i < MAX_DEPTH ∧ next ≠ []) then Some next
              else None
          end) as Hstep.
  { intros cursor w1 batches' Hsvc Hup Hw1 Hfirst Hnext. split.
    - rewrite decide_True; [done | split; [lia | done]].
    - intros [|i] b Hb.
      + injection Hb as <-. rewrite Nat.add_0_r, Hsvc.
        change ((frontier :: batches') !! 1) with (batches' !! 0).
        rewrite Hfirst, Nat.add_1_r. by destruct cursor.
      + change ((frontier :: batches') !! S i) with (batches' !! i) in Hb.
        change ((frontier :: batches') !! S (S i)) with (batches' !! S i).
        rewrite (Hnext i b Hb).
        rewrite Hw1, length_app. cbn [length].
        replace (length (queries w) + 1 + i) with (length (queries w) + S i)
          by lia.
        by replace (depth + 1 + S i) with (depth + S (S i)) by lia. }
  unfold bind at 1. unfold execute.
  destruct (svc (length (queries w)) (SubcategoryQuery frontier))
    as [| |rows] eqn:Hsvc.
  - exists [frontier]. split_and!; [done | |].
    + rewrite decide_True; [done | split; [lia | done]].
    + intros [|i] b Hb; [| by rewrite lookup_cons, lookup_nil in Hb].
      injection Hb as <-. by rewrite Nat.add_0_r, Hsvc.
  - unfold bind. rewrite read_subcategories_run. cbn [queries errors].
    destruct (IH (depth + 1) ltac:(lia) (subcategories_of FetchFails)
                (tree ∪ list_to_set (subcategories_of FetchFails))
                (World (queries w ++ [SubcategoryQuery frontier])
                   (errors w ++ subcategories_log FetchFails)))
      as (batches & Hrun & Hfirst & Hnext).
    exists (frontier :: batches). rewrite Hrun. cbn [queries].
    rewrite fmap_cons, <- !app_assoc.
    split; [done |].
    eapply (Hstep _ (World (queries w ++ [SubcategoryQuery frontier]) _));
      [reflexivity | done | done | exact Hfirst | exact Hnext].
  - unfold bind. rewrite read_subcategories_run. cbn [queries errors].
    destruct (IH (depth + 1) ltac:(lia) (subcategories_of (Rows rows))
                (tree ∪ list_to_set (subcategories_of (Rows rows)))
                (World (queries w ++ [SubcategoryQuery frontier])
                   (errors w ++ subcategories_log (Rows rows))))
      as (batches & Hrun & Hfirst & Hnext).
    exists (frontier :: batches). rewrite Hrun. cbn [queries].
    rewrite fmap_cons, <- !app_assoc.
    split; [done |].
    eapply (Hstep _ (World (queries w ++ [SubcategoryQuery frontier]) _));
      [reflexivity | done | done | exact Hfirst | exact Hnext].
Qed.

End Expansion.

(** C7. The set the expansion stage of [find_articles] hands to the
    aggregation holds the normalized root, whatever the database answers;
    and the stage does produce a set on every database that lets no
    subcategory query fail. *)
Theorem expansion_contains_root
  (svc : service) (hash : pyval → N) (draws : list nat) (views : bool)
  (category : string) (w : world) :
  (∀ tree w1,
     expansion svc category w = (Ok tree, w1) →
     Str.replace " " "_" category ∈ tree
     ∧ find_articles svc hash draws views category w
       = _find_tagged_articles svc hash draws views
           (py_list (fun s => hash (PyStr s)) tree) w1)
  ∧ ((∀ n categories, svc n (SubcategoryQuery categories) ≠ QueryFails) →
     ∃ tree w1,
       expansion svc category w = (Ok tree, w1)
       ∧ Str.replace " " "_" category ∈ tree).
Proof.
  destruct (find_all_subcategories_run svc 0 [category]
              {[ Str.replace " " "_" category ]} w)
    as (batches & logged & r & Hrun & _ & _ & _ & Hr).
  fold (expansion svc category) in Hrun. split.
  - intros tree w1 Hok. rewrite Hok in Hrun. injection Hrun as <- ->.
    split; [set_solver |].
    unfold find_articles, bind. fold (expansion svc category).
    by rewrite Hok.
  - intros Hup. destruct r as [tree|e].
    + eexists _, _. split; [done | set_solver].
    + destruct Hr as (_ & i & b & _ & Hq). by apply Hup in Hq.
Qed.

Lemma frontier_chain_no_colon svc n frontier batches :
  frontier_chain svc n frontier batches →
  Forall (fun cat => no_colon cat = true) frontier →
  Forall (Forall (fun cat => no_colon cat = true)) batches.
Proof.
  revert n frontier.
  induction batches as [|b bs IH]; intros n frontier; [constructor |].
  intros (-> & _ & Hchain) Hfrontier. constructor; [done |].
  apply (IH _ _ Hchain), Forall_forall.
  by intros cat [? _]%list_elem_of_filter.
Qed.

(** C2, as the code has it. The expansion sends at most [MAX_DEPTH]
    batches to the subcategory query, none empty and none with an
    identifier that contains a colon. The first batch is the root, and it is
    sent unless the root contains a colon. The batch after a batch is all
    that the database answered to it, without the identifiers that contain a
    colon, and it is sent exactly when the query of the batch did not fail,
    fewer than [MAX_DEPTH] batches have been sent and that list is not
    empty. Nothing is compared with the accumulated set. *)
Theorem expansion_frontiers
  (svc : service) (category : string) (w : world) :
  ∃ batches,
    queries (expansion svc category w).2
    = queries w ++ (SubcategoryQuery <$> batches)
    ∧ length batches ≤ MAX_DEPTH
    ∧ frontier_chain svc (length (queries w))
        (filter (fun cat => no_colon cat = true) [category]) batches
    ∧ Forall (Forall (fun cat => no_colon cat = true)) batches
    ∧ batches !! 0 = (if no_colon category then Some [category] else None)
    ∧ ∀ i b,
        batches !! i = Some b →
        batches !! S i
        = match svc (length (queries w) + i) (SubcategoryQuery b) with
          | QueryFails => None
          | (FetchFails | Rows _) as cursor =>
              let next := filter (fun cat => no_colon cat = true)
                            (subcategories_of cursor) in
              if decide (S i < MAX_DEPTH ∧ next ≠ []) then Some next
              else None
          end.
Proof.
  destruct (find_all_subcategories_run svc 0 [category]
              {[ Str.replace " " "_" category ]} w)
    as (batches & logged & r & Hrun & Hlen & Hchain & _ & _).
  destruct (find_all_subcategories_successors svc 0 [category]
              {[ Str.replace " " "_" category ]} w)
    as (batches' & Hrun' & Hfirst & Hnext).
  fold (expansion svc category) in Hrun, Hrun'.
  rewrite Hrun in Hrun'. cbn [snd queries] in Hrun'.
  apply app_inv_head in Hrun'.
  assert (Inj (=) (=) SubcategoryQuery) as Hinj by (by intros ? ? [=]).
  apply (inj (fmap SubcategoryQuery)) in Hrun'. subst batches'.
  exists batches. rewrite Hrun.
  refine (conj _ (conj _ (conj _ (conj _ (conj _ _)))));
    [done | lia | done | | | exact Hnext].
  - apply (frontier_chain_no_colon _ _ _ _ Hchain), Forall_forall.
    by intros cat [? _]%list_elem_of_filter.
  - rewrite Hfirst. cbv zeta. destruct (no_colon category) eqn:Hroot.
    + rewrite filter_cons_True by done. rewrite filter_nil.
      rewrite decide_True; [done | split; [unfold MAX_DEPTH; lia | done]].
    + rewrite filter_cons_False by (by rewrite Hroot). rewrite filter_nil.
      rewrite decide_False; [done | tauto].
Qed.

(** C2, as stated, fails on a graph with a cycle: [A] is sent to the
    subcategory query at depth 0 and, being a subcategory of [B], again at
    depth 2, when the accumulated set holds it already. *)
Lemma expansion_resubmits_on_cycle :
  submitted (expansion svc_cycle "A" w0).2 = ["A"; "B"; "A"]%string
  ∧ ¬ NoDup (submitted (expansion svc_cycle "A" w0).2).
Proof.
  assert (submitted (expansion svc_cycle "A" w0).2 = ["A"; "B"; "A"]%string)
    as Heq by (vm_compute; reflexivity).
  split; [done |]. rewrite Heq. intros Hnd.
  apply NoDup_cons in Hnd as [Hnotin _]. apply Hnotin.
  apply list_elem_of_further, list_elem_of_here.
Qed.

(** ** Faults of a level *)


Lemma find_articles_after_expansion svc hash draws views category w :
  match expansion svc category w with
  | (Ok tree, w1) =>
      find_articles svc hash draws views category w
      = _find_tagged_articles svc hash draws views
          (py_list (fun s => hash (PyStr s)) tree) w1
  | (Raised e, w1) =>
      find_articles svc hash draws views category w = (Raised e, w1)
  end.
Proof.
  unfold find_articles, bind. fold (expansion svc category).
  by destruct (expansion svc category w) as [[tree|e] w1].
Qed.



(** A cursor that cannot be read, and a title that is [str], at depth 0:
    the fault is logged and the request completes with the root alone. *)
Example fetch_fault_completes :
  (find_articles svc_fetch_fault hash_zero [] false "A" w0).1 = Ok ([], false)
  ∧ errors (find_articles svc_fetch_fault hash_zero [] false "A" w0).2
    = [LogError "Failed to create a list of subcategories: %s" DatabaseError]
  ∧ submitted (find_articles svc_fetch_fault hash_zero [] false "A" w0).2
    = ["A"%string].
Proof. split_and!; vm_compute; reflexivity. Qed.

Example title_fault_completes :
  (find_articles svc_title_fault hash_zero [] false "A" w0).1 = Ok ([], false)
  ∧ errors (find_articles svc_title_fault hash_zero [] false "A" w0).2
    = [LogError "Failed to create a list of subcategories: %s" AttributeError]
  ∧ submitted (find_articles svc_title_fault hash_zero [] false "A" w0).2
    = ["A"%string].
Proof. split_and!; vm_compute; reflexivity. Qed.

(** ** The root of the expansion *)

Lemma find_tagged_articles_queries svc hash draws views categories w :
  ∃ qs,
    queries (_find_tagged_articles svc hash draws views categories w).2
    = queries w ++ qs.
Proof.
  unfold _find_tagged_articles, bind, execute, lift.
  destruct (svc (length (queries w)) _) as [| |rows1];
    cbn [fetchall]; try by eexists.
  match goal with
  | |- context [_extract_problems rows1 ?a ?w1] =>
      destruct (extract_problems_run rows1 a w1)
        as (articles1 & logged1 & Hrun1 & _)
  end.
  rewrite Hrun1. cbn [queries errors].
  destruct (svc _ _) as [| |rows2];
    cbn [fetchall snd queries]; try (rewrite <- app_assoc; by eexists).
  match goal with
  | |- context [_extract_problems rows2 ?a ?w1] =>
      destruct (extract_problems_run rows2 a w1)
        as (articles2 & logged2 & Hrun2 & _)
  end.
  rewrite Hrun2. cbn [snd queries]. rewrite <- app_assoc. by eexists.
Qed.

(** C6, on the code. For a category with a space, [find_articles] seeds
    the set with the normalized name and sends the name as it came, with
    its space, as the frontier of depth 0. *)
Theorem find_articles_queries_raw_category
  (svc : service) (hash : pyval → N) (draws : list nat) (views : bool)
  (w : world) :
  ∃ rest,
    queries (find_articles svc hash draws views category_with_space w).2
    = queries w ++ SubcategoryQuery ["19. Jahrhundert"%string] :: rest
    ∧ Str.replace " " "_" category_with_space = "19._Jahrhundert"%string
    ∧ Str.replace " " "_" category_with_space ≠ "19. Jahrhundert"%string.
Proof.
  destruct (find_all_subcategories_run svc 0 [category_with_space]
              {[ Str.replace " " "_" category_with_space ]} w)
    as (batches & logged & r & Hrun & _ & Hchain & Hnil & _).
  fold (expansion svc category_with_space) in Hrun.
  destruct batches as [|b batches].
  { destruct (Hnil eq_refl) as [Hdepth|Hfilter];
      [unfold MAX_DEPTH in Hdepth; lia | discriminate Hfilter]. }
  destruct Hchain as (-> & _ & _).
  pose proof (find_articles_after_expansion svc hash draws views
                category_with_space w) as Hafter.
  rewrite Hrun in Hafter. destruct r as [tree|e].
  - rewrite Hafter.
    match goal with
    | |- context [_find_tagged_articles svc hash draws views ?c ?w1] =>
        destruct (find_tagged_articles_queries svc hash draws views c w1)
          as [qs Hqs]
    end.
    rewrite Hqs. cbn [queries]. rewrite fmap_cons, <- app_assoc.
    eexists. split_and!; [reflexivity | done | done].
  - rewrite Hafter. cbn [snd queries]. rewrite fmap_cons.
    eexists. split_and!; [reflexivity | done | done].
Qed.

(** ** The catalog *)

(** C5, as the code has it. The catalog is the constant list of the names
    [<root>/<type>_<year>-<month>] of the two types, for the nine months
    from April (04) to December (12) and, for each month, the years 2018 and
    2019: 36 distinct names, those of the archive links first. *)
Theorem iabot_cats_catalog :
  generate_iabot_cats
  = (type ← iabot_types; month ← seq 4 9; year ← iabot_years;
     [catalog_name iabot_root type year month])
  ∧ length generate_iabot_cats = 36
  ∧ NoDup generate_iabot_cats
  ∧ ∀ name,
      name ∈ generate_iabot_cats ↔
      ∃ type year month,
        type ∈ iabot_types ∧ year ∈ iabot_years ∧ 4 ≤ month ≤ 12
        ∧ name = catalog_name iabot_root type year month.
Proof.
  assert (generate_iabot_cats
          = (type ← iabot_types; month ← seq 4 9; year ← iabot_years;
             [catalog_name iabot_root type year month])) as Heq
    by (vm_compute; reflexivity).
  split_and!; [done | by vm_compute | |].
  - apply (bool_decide_unpack _). by vm_compute.
  - intros name. rewrite Heq. split.
    + intros (type & (month & (year & Hname%list_elem_of_singleton & Hyear)
                      %list_elem_of_bind & Hmonth%elem_of_seq)
                     %list_elem_of_bind & Htype)%list_elem_of_bind.
      exists type, year, month. split_and!; try done; lia.
    + intros (type & year & month & Htype & Hyear & Hmonth & ->).
      apply list_elem_of_bind. exists type. split; [| done].
      apply list_elem_of_bind. exists month.
      split; [| apply elem_of_seq; lia].
      apply list_elem_of_bind. exists year.
      split; [apply list_elem_of_here | done].
Qed.

(** C5, as stated, fails: the catalog does not span January. *)
Lemma iabot_cats_lack_january : ¬ catalog_covers_month 1.
Proof.
  intros Hcovers.
  specialize (Hcovers "Ungeprüfte_Archivlinks"%string 2018).
  revert Hcovers. apply (bool_decide_unpack _). by vm_compute.
Qed.

(** ** The properties at work on the examples *)

(** C9 on the example of the specification, with a second page: the five
    rows of the two sources make two entries. *)
Lemma find_tagged_articles_pages_distinct_witness :
  ∃ res more w',
    _find_tagged_articles svc_duplicates hash_zero [] false ["Fußball"%string] w0
    = (Ok (res, more), w')
    ∧ length res = 2
    ∧ NoDup (page <$> res)
    ∧ ∃ rows1 rows2,
        svc_duplicates (length (queries w0))
          (ArticlesQuery (Str.join "|" ["Fußball"%string]) TAGS) = Rows rows1
        ∧ svc_duplicates (S (length (queries w0)))
            (IabotQuery (Str.join "|" ["Fußball"%string]) IABOT_CATS)
          = Rows rows2
        ∧ ∀ r x,
            r ∈ res →
            x ∈ problems r ↔ x ∈ labels_for (page r) (rows1 ++ rows2).
Proof.
  eexists _, _, _. split; [vm_compute; reflexivity |]. split; [done |].
  eapply (find_tagged_articles_pages_distinct svc_duplicates hash_zero [] false
            ["Fußball"%string] w0).
  vm_compute; reflexivity.
Defined.

(** C3 on the same example: the problem reported three times for
    [ArticleA] is named once. *)
Lemma find_tagged_articles_problems_distinct_witness :
  ∃ res more w',
    _find_tagged_articles svc_duplicates hash_length [] false ["Fußball"%string] w0
    = (Ok (res, more), w')
    ∧ length res = 2
    ∧ Forall (fun r => NoDup (problems r)) res.
Proof.
  eexists _, _, _. split; [vm_compute; reflexivity |]. split; [done |].
  eapply (find_tagged_articles_problems_distinct svc_duplicates hash_length [] false
            ["Fußball"%string] w0).
  vm_compute; reflexivity.
Defined.

(** C8 on a dictionary of two pages, under two hashes, two lists of
    draws and two interpreters. *)
Lemma finalize_idempotent_witness :
  length (Dict.items articles_two) ≤ NUM
  ∧ ∃ res1 res2,
      finalize hash_zero [] true articles_two = Ok (res1, false)
      ∧ finalize hash_length [3; 1] false articles_two = Ok (res2, false)
      ∧ Forall2
          (fun r1 r2 => page r1 = page r2 ∧ problems r1 ≡ₚ problems r2)
          res1 res2
      ∧ finalize hash_zero [3; 1] false articles_two = Ok (res1, false).
Proof.
  split; [vm_compute; lia |].
  apply (finalize_idempotent hash_zero hash_length [] [3; 1] true false
           articles_two).
  vm_compute; lia.
Defined.

(** C1 on a dictionary of twelve pages. *)
Lemma finalize_view_refused_witness :
  NUM < length (Dict.items articles_twelve)
  ∧ finalize hash_zero draws_ex false articles_twelve = Raised TypeError.
Proof.
  split; [vm_compute; lia |].
  apply (finalize_view_refused hash_zero draws_ex false articles_twelve);
    [vm_compute; lia | reflexivity].
Defined.

(** Twelve pages, where the view is sampled: ten are returned, none twice,
    and the flag is set. *)
Example finalize_twelve :
  ∃ res,
    finalize hash_zero draws_ex true articles_twelve = Ok (res, true)
    ∧ page <$> res
      = ["Page_11"; "Page_0"; "Page_7"; "Page_3"; "Page_8"; "Page_1";
         "Page_10"; "Page_2"; "Page_6"; "Page_5"]%string
    ∧ admissible 12 NUM draws_ex.
Proof.
  eexists. split_and!; [vm_compute; reflexivity | vm_compute; reflexivity |].
  split; [done |]. intros i d Hd.
  do 10 (destruct i as [|i]; [injection Hd as <-; simpl; lia |]).
  discriminate Hd.
Qed.

(** Ninety pages, more than [setsize]: a draw that repeats a selected
    position is made again, and the draws after the tenth selection are not
    looked at. *)
Example finalize_ninety :
  ∃ res,
    finalize hash_zero draws_repeating true articles_ninety = Ok (res, true)
    ∧ page <$> res
      = ["Page_3"; "Page_10"; "Page_0"; "Page_2"; "Page_1"; "Page_7";
         "Page_8"; "Page_9"; "Page_11"; "Page_12"]%string
    ∧ select_positions draws_repeating 90 NUM
      = [3; 10; 0; 2; 1; 7; 8; 9; 11; 12]
    ∧ select_positions (take 16 draws_repeating) 90 NUM
      = select_positions draws_repeating 90 NUM
    ∧ finalize hash_zero draws_repeating false articles_ninety
      = Raised TypeError.
Proof.
  eexists. split_and!; vm_compute; reflexivity.
Qed.

(** * Further properties of the request *)

(** ** [_extract_problems]: the rows it skips, and how it composes *)

Lemma extract_problems_aggregate rows articles w :
  _extract_problems rows articles w
  = (Ok (aggregate rows articles),
     World (queries w) (errors w ++ extraction_errors rows)).
Proof.
  revert articles w. induction rows as [|item rows IH]; intros articles w.
  - destruct w. cbn. by rewrite app_nil_r.
  - cbn [_extract_problems aggregate foldl extraction_errors omap list_omap].
    destruct (extract_row item) as [[p problem]|e]; [apply IH |].
    unfold bind, logger_error. rewrite IH. cbn [queries errors].
    by rewrite <- app_assoc.
Qed.

Lemma extractable_Ok item :
  extractable item = true ↔ ∃ p problem, extract_row item = Ok (p, problem).
Proof.
  unfold extractable. destruct (extract_row item) as [[p problem]|e].
  - split; [by exists p, problem | done].
  - split; [done | by intros (? & ? & ?)].
Qed.

Lemma extractable_Raised item e :
  extract_row item = Raised e → extractable item ≠ true.
Proof. unfold extractable. by intros ->. Qed.

Lemma aggregate_filter rows articles :
  aggregate (filter (fun item => extractable item = true) rows) articles
  = aggregate rows articles.
Proof.
  revert articles. induction rows as [|item rows IH]; intros articles; [done |].
  rewrite filter_cons. cbn [aggregate foldl].
  destruct (extract_row item) as [[p problem]|e] eqn:Hrow.
  - rewrite decide_True by (apply extractable_Ok; eauto).
    cbn [aggregate foldl]. rewrite Hrow. apply IH.
  - rewrite decide_False by (by eapply extractable_Raised). apply IH.
Qed.

Lemma extraction_errors_filter rows :
  extraction_errors (filter (fun item => extractable item = true) rows) = [].
Proof.
  induction rows as [|item rows IH]; [done |].
  rewrite filter_cons.
  destruct (extract_row item) as [[p problem]|e] eqn:Hrow.
  - rewrite decide_True by (apply extractable_Ok; eauto).
    cbn [extraction_errors omap list_omap]. by rewrite Hrow.
  - by rewrite decide_False by (by eapply extractable_Raised).
Qed.

Lemma extraction_errors_length rows :
  length (extraction_errors rows)
  + length (filter (fun item => extractable item = true) rows)
  = length rows.
Proof.
  induction rows as [|item rows IH]; [done |].
  rewrite filter_cons.
  cbn [extraction_errors omap list_omap].
  destruct (extract_row item) as [[p problem]|e] eqn:Hrow.
  - rewrite decide_True by (apply extractable_Ok; eauto).
    fold (extraction_errors rows). simpl. lia.
  - rewrite decide_False by (by eapply extractable_Raised).
    fold (extraction_errors rows). simpl. lia.
Qed.

(** X1. [_extract_problems] never raises: it returns a dictionary,
    sends no query, and logs one error for each row it cannot extract, in
    the order of the rows. It skips exactly these rows: the dictionary it
    returns is the one it returns for the extractable rows alone, for which
    it logs nothing. *)
Theorem extract_problems_skips
  (rows : list row) (articles : Dict.t (list pyval)) (w : world) :
  ∃ articles',
    _extract_problems rows articles w
    = (Ok articles', World (queries w) (errors w ++ extraction_errors rows))
    ∧ _extract_problems (filter (fun item => extractable item = true) rows)
        articles w
      = (Ok articles', w)
    ∧ length (extraction_errors rows)
      + length (filter (fun item => extractable item = true) rows)
      = length rows.
Proof.
  exists (aggregate rows articles).
  rewrite !extract_problems_aggregate, aggregate_filter,
    extraction_errors_filter, app_nil_r.
  destruct w. split_and!; [done | done | apply extraction_errors_length].
Qed.

(** X2. Extraction composes: the rows of one result followed by the rows
    of another give the dictionary and the log of extracting the first into
    the dictionary and then the second into what that returns. *)
Theorem extract_problems_app
  (rows1 rows2 : list row) (articles : Dict.t (list pyval)) (w : world) :
  _extract_problems (rows1 ++ rows2) articles w
  = bind (_extract_problems rows1 articles) (_extract_problems rows2) w.
Proof.
  unfold bind. rewrite !extract_problems_aggregate. cbn [queries errors].
  unfold aggregate, extraction_errors.
  by rewrite foldl_app, omap_app, app_assoc.
Qed.

(** ** [_find_tagged_articles]: what it returns and when it raises *)

(** The sampler returns unless it has to sample a view that the
    interpreter refuses. *)
Lemma finalize_outcome hash draws views articles :
  if decide (views = false ∧ NUM < length (Dict.items articles))
  then finalize hash draws views articles = Raised TypeError
  else ∃ res more, finalize hash draws views articles = Ok (res, more).
Proof.
  case_decide as Hcase.
  - destruct Hcase as [-> Hn]. by apply finalize_refused.
  - destruct (decide (length (Dict.items articles) ≤ NUM)) as [Hle|Hgt].
    + eexists _, _. by apply finalize_all.
    + destruct views; [| exfalso; apply Hcase; split; [done | lia]].
      destruct (finalize_sampled hash draws articles)
        as (selected & rest & Hrun & _); [lia |]. by eexists _, _.
Qed.

(** The whole of [_find_tagged_articles], by the answers of the
    database. *)
Lemma find_tagged_articles_outcome svc hash draws views categories w :
  _find_tagged_articles svc hash draws views categories w =
  let n := length (queries w) in
  let q1 := ArticlesQuery (Str.join "|" categories) TAGS in
  let q2 := IabotQuery (Str.join "|" categories) IABOT_CATS in
  match svc n q1 with
  | Rows rows1 =>
      match svc (S n) q2 with
      | Rows rows2 =>
          (finalize hash draws views (aggregate (rows1 ++ rows2) Dict.empty),
           World (queries w ++ [q1; q2])
             (errors w ++ extraction_errors (rows1 ++ rows2)))
      | _ =>
          (Raised DatabaseError,
           World (queries w ++ [q1; q2])
             (errors w ++ extraction_errors rows1))
      end
  | _ => (Raised DatabaseError, World (queries w ++ [q1]) (errors w))
  end.
Proof.
  cbv zeta. unfold _find_tagged_articles, bind, execute, lift.
  destruct (svc (length (queries w)) _) as [| |rows1];
    cbn [fetchall]; try done.
  rewrite extract_problems_aggregate. cbn [queries errors].
  rewrite length_app, Nat.add_1_r, <- app_assoc. cbn [app].
  destruct (svc (S (length (queries w))) _) as [| |rows2];
    cbn [fetchall]; try done.
  rewrite extract_problems_aggregate. cbn [queries errors].
  unfold aggregate, extraction_errors.
  by rewrite foldl_app, omap_app, app_assoc.
Qed.

(** ** The pages of the result *)

Lemma elem_of_first_occurrences_from seen pages p :
  p ∈ first_occurrences_from seen pages ↔ p ∈ seen ∨ p ∈ pages.
Proof.
  revert seen. induction pages as [|q pages IH]; intros seen.
  - cbn. rewrite elem_of_nil. tauto.
  - cbn [first_occurrences_from foldl].
    fold (first_occurrences_from
            (if decide (q ∈ seen) then seen else seen ++ [q]) pages).
    rewrite IH, elem_of_cons. case_decide.
    + split; [tauto |]. intros [?|[->|?]]; auto.
    + rewrite elem_of_app, list_elem_of_singleton. tauto.
Qed.

Lemma NoDup_first_occurrences_from seen pages :
  NoDup seen → NoDup (first_occurrences_from seen pages).
Proof.
  revert seen. induction pages as [|q pages IH]; intros seen Hseen; [done |].
  cbn [first_occurrences_from foldl]. apply IH. case_decide; [done |].
  apply NoDup_app. split_and!; [done | | apply NoDup_singleton].
  by intros x Hx ->%list_elem_of_singleton.
Qed.

Lemma keys_add_problem_first page problem articles :
  Dict.keys (add_problem page problem articles)
  = if decide (page ∈ Dict.keys articles) then Dict.keys articles
    else Dict.keys articles ++ [page].
Proof.
  unfold add_problem.
  destruct (Dict.get page articles) eqn:Hget; apply DictFacts.keys_set.
Qed.

Lemma keys_aggregate rows articles :
  Dict.keys (aggregate rows articles)
  = first_occurrences_from (Dict.keys articles) (reported_pages rows).
Proof.
  revert articles. induction rows as [|item rows IH]; intros articles; [done |].
  cbn [aggregate foldl reported_pages omap list_omap].
  destruct (extract_row item) as [[p problem]|e]; [| apply IH].
  fold (aggregate rows (add_problem p problem articles)).
  rewrite IH, keys_add_problem_first. done.
Qed.

Lemma labels_for_reported page rows :
  labels_for page rows ≠ [] ↔ page ∈ reported_pages rows.
Proof.
  induction rows as [|item rows IH]; [by rewrite elem_of_nil |].
  cbn [labels_for reported_pages omap list_omap].
  fold (labels_for page rows) (reported_pages rows).
  destruct (extract_row item) as [[p problem]|e]; [| done].
  rewrite elem_of_cons. destruct (decide (p = page)) as [->|Hne].
  - split; [by left | done].
  - rewrite IH. split; [by right | by intros [?|?]].
Qed.

Lemma aggregate_facts rows articles :
  (Dict.wf articles → Dict.wf (aggregate rows articles))
  ∧ ∀ page,
      Dict.get page (aggregate rows articles) =
      match labels_for page rows with
      | [] => Dict.get page articles
      | ls => Some (default [] (Dict.get page articles) ++ ls)
      end.
Proof.
  destruct (extract_problems_run rows articles w0)
    as (articles' & logged & Hrun & Hwf & _ & Hget).
  rewrite extract_problems_aggregate in Hrun. injection Hrun as <- _.
  by split.
Qed.

(** A request that returns sampled the dictionary of the rows of both
    sources. *)
Lemma find_tagged_articles_aggregate svc hash draws views categories w res more w' :
  _find_tagged_articles svc hash draws views categories w = (Ok (res, more), w') →
  ∃ rows1 rows2,
    svc (length (queries w))
      (ArticlesQuery (Str.join "|" categories) TAGS) = Rows rows1
    ∧ svc (S (length (queries w)))
        (IabotQuery (Str.join "|" categories) IABOT_CATS) = Rows rows2
    ∧ finalize hash draws views (aggregate (rows1 ++ rows2) Dict.empty)
      = Ok (res, more).
Proof.
  rewrite find_tagged_articles_outcome. cbv zeta.
  destruct (svc (length (queries w)) _) as [| |rows1]; try done.
  destruct (svc (S (length (queries w))) _) as [| |rows2]; try done.
  intros [= Hfin _]. by exists rows1, rows2.
Qed.

(** The pages of the dictionary are the pages the rows report, each
    once. *)
Lemma aggregate_length rows :
  length (Dict.items (aggregate rows Dict.empty))
  = length (first_occurrences (reported_pages rows)).
Proof.
  unfold first_occurrences.
  change [] with (Dict.keys (Dict.empty (V := list pyval))).
  rewrite <- keys_aggregate. unfold Dict.keys, Dict.items.
  by rewrite length_fmap.
Qed.

(** X3. [_find_tagged_articles] returns a list if and only if the
    database hands out rows for both of its queries and the sampler returns:
    the rows report at most [NUM] distinct pages, or the interpreter samples
    the view of a dictionary. With rows for both queries, more than [NUM]
    pages and an interpreter that refuses the view, it raises [TypeError]
    after both queries. If the first query or its fetch fails, it raises
    [DatabaseError] and the second query is not sent; if the second fails,
    it raises [DatabaseError] as well, and the pages of the first source are
    not returned. *)
Theorem find_tagged_articles_all_or_nothing
  (svc : service) (hash : pyval → N) (draws : list nat) (views : bool)
  (categories : list string) (w : world) :
  let n := length (queries w) in
  let q1 := ArticlesQuery (Str.join "|" categories) TAGS in
  let q2 := IabotQuery (Str.join "|" categories) IABOT_CATS in
  let run := _find_tagged_articles svc hash draws views categories w in
  ((∃ res more, run.1 = Ok (res, more)) ↔
   (∃ rows1 rows2,
      svc n q1 = Rows rows1 ∧ svc (S n) q2 = Rows rows2
      ∧ (views = true
         ∨ length (first_occurrences (reported_pages (rows1 ++ rows2)))
           ≤ NUM)))
  ∧ (∀ rows1 rows2,
       svc n q1 = Rows rows1 → svc (S n) q2 = Rows rows2 →
       views = false →
       NUM < length (first_occurrences (reported_pages (rows1 ++ rows2))) →
       run = (Raised TypeError,
              World (queries w ++ [q1; q2])
                (errors w ++ extraction_errors (rows1 ++ rows2))))
  ∧ ((∀ rows1, svc n q1 ≠ Rows rows1) →
     run = (Raised DatabaseError, World (queries w ++ [q1]) (errors w)))
  ∧ (∀ rows1,
       svc n q1 = Rows rows1 → (∀ rows2, svc (S n) q2 ≠ Rows rows2) →
       run = (Raised DatabaseError,
              World (queries w ++ [q1; q2])
                (errors w ++ extraction_errors rows1))).
Proof.
  intros n q1 q2 run. subst run.
  rewrite find_tagged_articles_outcome. cbv zeta. fold n q1 q2.
  destruct (svc n q1) as [| |rows1] eqn:Hq1.
  - split_and!; [| done | done | done].
    split; [by intros (? & ? & ?) | by intros (? & ? & ? & ?)].
  - split_and!; [| done | done | done].
    split; [by intros (? & ? & ?) | by intros (? & ? & ? & ?)].
  - destruct (svc (S n) q2) as [| |rows2] eqn:Hq2.
    + split_and!;
        [| done | by intros H; destruct (H rows1) | by intros ? [= <-] _].
      split; [by intros (? & ? & ?) | by intros (? & ? & _ & ? & _)].
    + split_and!;
        [| done | by intros H; destruct (H rows1) | by intros ? [= <-] _].
      split; [by intros (? & ? & ?) | by intros (? & ? & _ & ? & _)].
    + pose proof (finalize_outcome hash draws views
                    (aggregate (rows1 ++ rows2) Dict.empty)) as Hfin.
      rewrite aggregate_length in Hfin.
      split_and!.
      * cbn [fst]. split.
        -- intros Hok. exists rows1, rows2. split_and!; [done | done |].
           case_decide as Hcase.
           ++ destruct Hok as (res & more & Hok). congruence.
           ++ destruct views; [by left | right].
              destruct (decide (length (first_occurrences
                          (reported_pages (rows1 ++ rows2))) ≤ NUM));
                [done | exfalso; apply Hcase; split; [done | lia]].
        -- intros (? & ? & [= <-] & [= <-] & Hcase).
           rewrite decide_False in Hfin; [done |].
           intros [-> ?]. destruct Hcase; [done | lia].
      * intros ? ? [= <-] [= <-] Hviews Hn.
        rewrite decide_True in Hfin by done. by rewrite Hfin.
      * intros H. by destruct (H rows1).
      * intros ? _ H. by destruct (H rows2).
Qed.

Lemma extract_row_text item p x : extract_row item = Ok (p, x) → is_text x.
Proof.
  unfold extract_row, rbind, getitem.
  destruct (item !! "page_title"%string) as [v|]; [| done].
  destruct (decode v) as [page|]; [| done].
  destruct (item !! "tl_title"%string) as [[b|s|]|]; cbn [decode];
    [| by intros [= _ <-] | by intros [= _ <-] | done].
  destruct (Str.decode_utf8 b); [by intros [= _ <-] | done].
Qed.

Lemma labels_for_text page rows x : x ∈ labels_for page rows → is_text x.
Proof.
  unfold labels_for. rewrite list_elem_of_omap. intros (item & _ & Hx).
  destruct (extract_row item) as [[p problem]|e] eqn:Hrow; [| done].
  case_decide; [| done]. injection Hx as <-. by eapply extract_row_text.
Qed.

Section Entries.

Context (svc : service) (hash : pyval → N) (draws : list nat) (views : bool).

(** The entries of a returned list, by the rows of the two sources. *)
Lemma find_tagged_articles_entry categories w res more w' rows1 rows2 r :
  _find_tagged_articles svc hash draws views categories w = (Ok (res, more), w') →
  svc (length (queries w))
    (ArticlesQuery (Str.join "|" categories) TAGS) = Rows rows1 →
  svc (S (length (queries w)))
    (IabotQuery (Str.join "|" categories) IABOT_CATS) = Rows rows2 →
  r ∈ res →
  labels_for (page r) (rows1 ++ rows2) ≠ []
  ∧ ∀ x, x ∈ problems r ↔ x ∈ labels_for (page r) (rows1 ++ rows2).
Proof.
  intros (rows1' & rows2' & Hq1 & Hq2 & Hfin)%find_tagged_articles_aggregate.
  intros Hq1' Hq2' Hr.
  assert (rows1' = rows1) as -> by congruence.
  assert (rows2' = rows2) as -> by congruence.
  destruct (aggregate_facts (rows1 ++ rows2) Dict.empty) as [Hwf Hget].
  specialize (Hwf DictFacts.wf_empty).
  apply finalize_entries in Hfin as (selected & rest & -> & Hperm).
  apply list_elem_of_fmap in Hr as ([p l] & -> & Hin).
  assert ((p, l) ∈ Dict.items (aggregate (rows1 ++ rows2) Dict.empty))
    as Hitem by (rewrite <- Hperm, elem_of_app; by left).
  apply (DictFacts.get_elem_of _ _ _ Hwf) in Hitem.
  rewrite Hget in Hitem. cbn [page page_entry].
  destruct (labels_for p (rows1 ++ rows2)) as [|x0 ls] eqn:Hls; [done |].
  injection Hitem as <-. split; [done |].
  intros x. apply elem_of_problems_page_entry.
Qed.

(** X4. No entry of the list [_find_tagged_articles] returns is without a
    problem, and the page of each entry is one that a row of one of the
    two sources reported in full: a page whose rows were all skipped does
    not appear. *)
Theorem find_tagged_articles_entries_reported
  (categories : list string) (w w' : world)
  (res : list page_result) (more : bool) :
  _find_tagged_articles svc hash draws views categories w = (Ok (res, more), w') →
  ∃ rows1 rows2,
    svc (length (queries w))
      (ArticlesQuery (Str.join "|" categories) TAGS) = Rows rows1
    ∧ svc (S (length (queries w)))
        (IabotQuery (Str.join "|" categories) IABOT_CATS) = Rows rows2
    ∧ ∀ r, r ∈ res →
           problems r ≠ [] ∧ page r ∈ reported_pages (rows1 ++ rows2).
Proof.
  intros Hrun.
  destruct (find_tagged_articles_aggregate _ _ _ _ _ _ _ _ _ Hrun)
    as (rows1 & rows2 & Hq1 & Hq2 & _).
  exists rows1, rows2. split_and!; [done | done |]. intros r Hr.
  destruct (find_tagged_articles_entry _ _ _ _ _ _ _ _ Hrun Hq1 Hq2 Hr)
    as [Hne Hproblems].
  split; [| by apply labels_for_reported].
  destruct (labels_for (page r) (rows1 ++ rows2)) as [|x ls] eqn:Hls; [done |].
  intros Hnil. assert (x ∈ problems r) as Hx
    by (apply Hproblems, list_elem_of_here).
  rewrite Hnil in Hx. by apply elem_of_nil in Hx.
Qed.

(** X5. The flag [more] of [_find_tagged_articles] says whether the rows
    of the two sources report more than [NUM] distinct pages. When they do
    not, the list holds exactly the reported pages, each once, in the order
    in which the rows first report them. *)
Theorem find_tagged_articles_order
  (categories : list string) (w w' : world)
  (res : list page_result) (more : bool) :
  _find_tagged_articles svc hash draws views categories w = (Ok (res, more), w') →
  ∃ rows1 rows2,
    svc (length (queries w))
      (ArticlesQuery (Str.join "|" categories) TAGS) = Rows rows1
    ∧ svc (S (length (queries w)))
        (IabotQuery (Str.join "|" categories) IABOT_CATS) = Rows rows2
    ∧ more
      = bool_decide
          (NUM < length (first_occurrences (reported_pages (rows1 ++ rows2))))
    ∧ (more = false →
       page <$> res = first_occurrences (reported_pages (rows1 ++ rows2))).
Proof.
  intros (rows1 & rows2 & Hq1 & Hq2 & Hfin)%find_tagged_articles_aggregate.
  exists rows1, rows2. split_and!; [done | done | |].
  all: pose proof (keys_aggregate (rows1 ++ rows2) Dict.empty) as Hkeys.
  all: change (Dict.keys Dict.empty) with (@nil string) in Hkeys.
  all: fold (first_occurrences (reported_pages (rows1 ++ rows2))) in Hkeys.
  all: set (articles := aggregate (rows1 ++ rows2) Dict.empty) in *.
  all: assert (length (Dict.items articles)
               = length (first_occurrences (reported_pages (rows1 ++ rows2))))
         as Hlen by (rewrite <- Hkeys; unfold Dict.keys, Dict.items;
                     by rewrite length_fmap).
  all: destruct (decide (length (Dict.items articles) ≤ NUM)) as [Hle|Hgt].
  - rewrite finalize_all in Hfin by done. injection Hfin as _ <-.
    symmetry. apply bool_decide_eq_false_2. lia.
  - destruct views; [| by rewrite finalize_refused in Hfin by lia].
    destruct (finalize_sampled hash draws articles)
      as (selected & rest & Hrun & _); [lia |].
    rewrite Hrun in Hfin. injection Hfin as _ <-.
    symmetry. apply bool_decide_eq_true_2. lia.
  - intros _. rewrite finalize_all in Hfin by done. injection Hfin as <- _.
    by rewrite page_page_entry.
  - destruct views; [| by rewrite finalize_refused in Hfin by lia].
    destruct (finalize_sampled hash draws articles)
      as (selected & rest & Hrun & _); [lia |].
    rewrite Hrun in Hfin. by injection Hfin as _ <-.
Qed.

(** X6. Every problem named in the list [_find_tagged_articles] returns is
    text or [None]: the [bytes] of a row never reach the result. *)
Theorem find_tagged_articles_problems_text
  (categories : list string) (w w' : world)
  (res : list page_result) (more : bool) :
  _find_tagged_articles svc hash draws views categories w = (Ok (res, more), w') →
  ∀ r x, r ∈ res → x ∈ problems r → is_text x.
Proof.
  intros Hrun r x Hr Hx.
  destruct (find_tagged_articles_aggregate _ _ _ _ _ _ _ _ _ Hrun)
    as (rows1 & rows2 & Hq1 & Hq2 & _).
  destruct (find_tagged_articles_entry _ _ _ _ _ _ _ _ Hrun Hq1 Hq2 Hr)
    as [_ Hproblems].
  apply Hproblems in Hx. by eapply labels_for_text.
Qed.

End Entries.

(** ** The expansion: the set it builds *)

Section ExpansionSet.

Context (svc : service).

Lemma execute_run q w :
  execute svc q w
  = (match svc (length (queries w)) q with
     | QueryFails => Raised DatabaseError
     | FetchFails => Ok FetchFails
     | Rows rows => Ok (Rows rows)
     end,
     World (queries w ++ [q]) (errors w)).
Proof. unfold execute. by destruct (svc (length (queries w)) q). Qed.

(** A call of [_find_all_subcategories], in full: the batches it sends,
    and either the set it returns, which is the set it was given and the
    answers to the batches, or the last batch, whose query failed. *)
Lemma response_down_or_up (r : response) : r = QueryFails ∨ r ≠ QueryFails.
Proof. destruct r; [by left | by right | by right]. Qed.

Lemma find_all_subcategories_trace depth :
  ∀ categories tree w,
  ∃ batches logged r,
    _find_all_subcategories svc categories tree depth w
    = (r, World (queries w ++ (SubcategoryQuery <$> batches))
            (errors w ++ logged))
    ∧ length batches ≤ MAX_DEPTH - depth
    ∧ frontier_chain svc (length (queries w))
        (filter (fun cat => no_colon cat = true) categories) batches
    ∧ match r with
      | Ok tree' =>
          tree' = tree ∪ list_to_set (answers svc (length (queries w)) batches)
          ∧ ∀ i b, batches !! i = Some b →
                   svc (length (queries w) + i) (SubcategoryQuery b)
                   ≠ QueryFails
      | Raised e =>
          e = DatabaseError
          ∧ ∃ bs b, batches = bs ++ [b]
                    ∧ svc (length (queries w) + length bs)
                        (SubcategoryQuery b) = QueryFails
      end.
Proof.
  remember (MAX_DEPTH - depth) as m eqn:Hm.
  revert depth Hm.
  induction m as [|m IH]; intros depth Hm categories tree w;
    rewrite find_all_subcategories_unfold.
  { rewrite decide_True by lia.
    exists [], [], (Ok tree). destruct w. cbn. rewrite !app_nil_r.
    refine (conj _ (conj _ (conj _ (conj _ _))));
      [done | lia | done | by rewrite (right_id_L ∅ (∪)) |].
    intros i b Hb. by rewrite lookup_nil in Hb. }
  rewrite decide_False by lia. cbv zeta.
  set (frontier := filter (fun cat => no_colon cat = true) categories).
  destruct (decide (frontier = [])) as [Hnil|Hne].
  { exists [], [], (Ok tree). destruct w. cbn. rewrite !app_nil_r.
    refine (conj _ (conj _ (conj _ (conj _ _))));
      [done | lia | done | by rewrite (right_id_L ∅ (∪)) |].
    intros i b Hb. by rewrite lookup_nil in Hb. }
  unfold bind at 1. rewrite execute_run.
  set (cursor := svc (length (queries w)) (SubcategoryQuery frontier)).
  destruct (response_down_or_up cursor) as [Hdown|Hup].
  - rewrite Hdown. exists [frontier], [], (Raised DatabaseError).
    cbn. rewrite app_nil_r.
    refine (conj _ (conj _ (conj _ (conj _ _))));
      [done | lia | done | done |].
    exists [], frontier. by rewrite Nat.add_0_r.
  - assert (match cursor with
            | QueryFails => Raised DatabaseError
            | FetchFails => Ok FetchFails
            | Rows rows => Ok (Rows rows)
            end = Ok cursor) as -> by (by destruct cursor).
    unfold bind. rewrite read_subcategories_run. cbn [queries errors].
    set (subcategories := subcategories_of cursor).
    set (w1 := World (queries w ++ [SubcategoryQuery frontier])
                 (errors w ++ subcategories_log cursor)).
    destruct (IH (depth + 1) ltac:(lia) subcategories
                (tree ∪ list_to_set subcategories) w1)
      as (batches & logged & r & Hrun & Hlen & Hchain & Hr).
    subst w1. cbn [queries errors] in Hrun, Hchain, Hr.
    rewrite length_app, Nat.add_1_r in Hchain, Hr.
    exists (frontier :: batches), (subcategories_log cursor ++ logged), r.
    rewrite Hrun, fmap_cons, <- !app_assoc.
    refine (conj _ (conj _ (conj _ _)));
      [done | simpl; lia | by cbn [frontier_chain] | ].
    destruct r as [tree'|e].
    + destruct Hr as [-> Hup']. split.
      * cbn [answers]. fold cursor subcategories.
        by rewrite list_to_set_app_L, (assoc_L (∪)).
      * intros [|i] b Hb.
        -- injection Hb as <-. by rewrite Nat.add_0_r.
        -- rewrite Nat.add_succ_r. by apply Hup'.
    + destruct Hr as (-> & bs & b & -> & Hq). split; [done |].
      exists (frontier :: bs), b. split; [done |].
      cbn [length]. by rewrite Nat.add_succ_r.
Qed.

End ExpansionSet.

(** X7. The set the expansion of [find_articles] returns is exactly the
    normalized root and all the titles the database answered to the
    batches sent. A title with a colon is in the set like any other,
    though no batch ever holds it. *)
Theorem expansion_set
  (svc : service) (category : string) (w : world) (tree : gset string)
  (w' : world) :
  expansion svc category w = (Ok tree, w') →
  ∃ batches,
    queries w' = queries w ++ (SubcategoryQuery <$> batches)
    ∧ frontier_chain svc (length (queries w))
        (filter (fun cat => no_colon cat = true) [category]) batches
    ∧ (∀ c, c ∈ tree ↔
            c = Str.replace " " "_" category
            ∨ c ∈ answers svc (length (queries w)) batches)
    ∧ ∀ b c, b ∈ batches → c ∈ b → no_colon c = true.
Proof.
  intros Hrun.
  destruct (find_all_subcategories_trace svc 0 [category]
              {[ Str.replace " " "_" category ]} w)
    as (batches & logged & r & Hworld & _ & Hchain & Hr).
  fold (expansion svc category) in Hworld. rewrite Hrun in Hworld.
  injection Hworld as <- ->. destruct Hr as [-> _].
  exists batches. split_and!; [done | done | |].
  { intros c. rewrite elem_of_union, elem_of_singleton, elem_of_list_to_set.
    done. }
  intros b c Hb Hc.
  assert (Forall (Forall (fun cat => no_colon cat = true)) batches) as Hall.
  { apply (frontier_chain_no_colon _ _ _ _ Hchain), Forall_forall.
    by intros cat [? _]%list_elem_of_filter. }
  rewrite Forall_forall in Hall. specialize (Hall b Hb).
  rewrite Forall_forall in Hall. by apply Hall.
Qed.

Lemma py_list_singleton `{Countable A} (h : A → N) (x : A) :
  py_list h {[ x ]} = [x].
Proof. unfold py_list. by rewrite elements_singleton. Qed.

(** X8. For a category whose name holds a colon, [find_articles] sends no
    subcategory query: the set is the normalized name alone, and the two
    queries for pages are asked for this one name. *)
Theorem find_articles_namespace_root
  (svc : service) (hash : pyval → N) (draws : list nat) (views : bool)
  (category : string) (w : world) :
  Str.contains ":" category = true →
  expansion svc category w = (Ok {[ Str.replace " " "_" category ]}, w)
  ∧ find_articles svc hash draws views category w
    = _find_tagged_articles svc hash draws views
        [Str.replace " " "_" category] w.
Proof.
  intros Hcolon.
  assert (expansion svc category w
          = (Ok {[ Str.replace " " "_" category ]}, w)) as Hexp.
  { unfold expansion. rewrite find_all_subcategories_unfold.
    rewrite decide_False by (unfold MAX_DEPTH; lia). cbv zeta.
    rewrite filter_cons.
    destruct (decide (no_colon category = true)) as [Hno|_].
    { unfold no_colon in Hno. by rewrite Hcolon in Hno. }
    by rewrite filter_nil, decide_True. }
  split; [done |].
  pose proof (find_articles_after_expansion svc hash draws views category w) as H.
  rewrite Hexp in H. by rewrite H, py_list_singleton.
Qed.




(** ** [find_articles]: the queries of a request, and its failures *)

Section Request.

Context (svc : service) (hash : pyval → N) (draws : list nat) (views : bool).

(** A request, by the outcome of its expansion and the answers to the two
    queries for pages. *)
Lemma find_articles_run category w :
  ∃ batches logged r,
    expansion svc category w
    = (r, World (queries w ++ (SubcategoryQuery <$> batches))
            (errors w ++ logged))
    ∧ length batches ≤ MAX_DEPTH
    ∧ match r with
      | Raised e =>
          find_articles svc hash draws views category w
          = (Raised e, World (queries w ++ (SubcategoryQuery <$> batches))
                         (errors w ++ logged))
          ∧ e = DatabaseError
          ∧ ∃ bs b, batches = bs ++ [b]
                    ∧ svc (length (queries w) + length bs)
                        (SubcategoryQuery b) = QueryFails
      | Ok tree =>
          find_articles svc hash draws views category w
          = _find_tagged_articles svc hash draws views
              (py_list (fun s => hash (PyStr s)) tree)
              (World (queries w ++ (SubcategoryQuery <$> batches))
                 (errors w ++ logged))
          ∧ (∀ c, c ∈ tree ↔
                  c = Str.replace " " "_" category
                  ∨ c ∈ answers svc (length (queries w)) batches)
          ∧ ∀ i b, batches !! i = Some b →
                   svc (length (queries w) + i) (SubcategoryQuery b)
                   ≠ QueryFails
      end.
Proof.
  destruct (find_all_subcategories_trace svc 0 [category]
              {[ Str.replace " " "_" category ]} w)
    as (batches & logged & r & Hrun & Hlen & _ & Hr).
  fold (expansion svc category) in Hrun.
  exists batches, logged, r. split; [done |]. split; [lia |].
  pose proof (find_articles_after_expansion svc hash draws views category w)
    as Hafter.
  rewrite Hrun in Hafter. destruct r as [tree|e].
  - destruct Hr as [-> Hup]. split_and!; [done | | done].
    intros c. by rewrite elem_of_union, elem_of_singleton, elem_of_list_to_set.
  - destruct Hr as (-> & Hlast). by split_and!.
Qed.

(** X10. A request sends at most [MAX_DEPTH] subcategory queries and two
    queries for pages. When it returns, it has sent its batches and then
    the two queries for pages, both asked for the same names: each
    category of the set once, that is the normalized root and the titles
    answered to the batches. *)
Theorem find_articles_queries (category : string) (w : world) :
  let run := find_articles svc hash draws views category w in
  length (queries run.2) ≤ length (queries w) + MAX_DEPTH + 2
  ∧ ∀ res more,
      run.1 = Ok (res, more) →
      ∃ batches names,
        queries run.2
        = queries w ++ (SubcategoryQuery <$> batches)
          ++ [ArticlesQuery (Str.join "|" names) TAGS;
              IabotQuery (Str.join "|" names) IABOT_CATS]
        ∧ length batches ≤ MAX_DEPTH
        ∧ NoDup names
        ∧ ∀ c, c ∈ names ↔
               c = Str.replace " " "_" category
               ∨ c ∈ answers svc (length (queries w)) batches.
Proof.
  intros run. subst run.
  destruct (find_articles_run category w)
    as (batches & logged & r & _ & Hlen & Hr).
  destruct r as [tree|e].
  - destruct Hr as (-> & Htree & _).
    rewrite find_tagged_articles_outcome. cbv zeta. cbn [queries errors].
    set (names := py_list (fun s => hash (PyStr s)) tree).
    destruct (svc _ (ArticlesQuery _ _)) as [| |rows1].
    1,2: split; [| done]; cbn [snd queries];
      rewrite !length_app, length_fmap; simpl; lia.
    destruct (svc _ (IabotQuery _ _)) as [| |rows2].
    1,2: split; [| done]; cbn [snd queries];
      rewrite !length_app, length_fmap; simpl; lia.
    split.
    + cbn [snd queries]. rewrite !length_app, length_fmap. simpl. lia.
    + intros res more _. exists batches, names. cbn [snd queries].
      rewrite <- app_assoc. split_and!; [done | done | apply NoDup_py_list |].
      intros c. subst names. by rewrite elem_of_py_list.
  - destruct Hr as (-> & _). cbn [fst snd queries]. split; [| done].
    rewrite length_app, length_fmap. lia.
Qed.

(** X11. A request that returns has sent no query that failed: no
    subcategory query failed at its execution, and no query for pages at
    its execution or at the fetch of its rows. A request raises
    [DatabaseError] or [TypeError] and nothing else. It raises
    [DatabaseError] when a query fails, and the failed query is the last
    one sent. It raises [TypeError] only on an interpreter that refuses to
    sample the view of a dictionary, after all its queries, none of which
    failed. No exception of a row leaves [find_articles]. *)
Theorem find_articles_raises (category : string) (w : world) :
  let run := find_articles svc hash draws views category w in
  match run.1 with
  | Raised e =>
      (e = DatabaseError
       ∧ ∃ qs q,
           queries run.2 = queries w ++ qs ++ [q]
           ∧ query_failed svc (length (queries w) + length qs) q)
      ∨ (e = TypeError ∧ views = false
         ∧ ∀ i q,
             queries run.2 !! (length (queries w) + i) = Some q →
             ¬ query_failed svc (length (queries w) + i) q)
  | Ok _ =>
      ∀ i q,
        queries run.2 !! (length (queries w) + i) = Some q →
        ¬ query_failed svc (length (queries w) + i) q
  end.
Proof.
  intros run. subst run.
  destruct (find_articles_run category w)
    as (batches & logged & r & _ & _ & Hr).
  destruct r as [tree|e].
  - destruct Hr as (-> & _ & Hup).
    rewrite find_tagged_articles_outcome. cbv zeta. cbn [queries errors].
    rewrite length_app, length_fmap.
    set (names := py_list (fun s => hash (PyStr s)) tree).
    set (q1 := ArticlesQuery (Str.join "|" names) TAGS).
    set (q2 := IabotQuery (Str.join "|" names) IABOT_CATS).
    set (n := length (queries w)) in *.
    destruct (svc (n + length batches) q1) as [| |rows1] eqn:Hq1.
    1,2: cbn [fst snd queries]; left; split; [done |];
      exists (SubcategoryQuery <$> batches), q1; rewrite <- app_assoc;
      split; [done |]; rewrite length_fmap;
      unfold query_failed; rewrite Hq1;
      first [by left | right; split; [done | by intros]].
    destruct (svc (S (n + length batches)) q2) as [| |rows2] eqn:Hq2.
    1,2: cbn [fst snd queries]; left; split; [done |];
      exists ((SubcategoryQuery <$> batches) ++ [q1]), q2;
      rewrite <- !app_assoc; split; [done |];
      rewrite length_app, length_fmap, Nat.add_assoc, Nat.add_1_r;
      unfold query_failed; rewrite Hq2;
      first [by left | right; split; [done | by intros]].
    cbn [fst snd queries].
    assert (∀ i q,
              ((queries w ++ (SubcategoryQuery <$> batches)) ++ [q1; q2])
                !! (n + i) = Some q →
              ¬ query_failed svc (n + i) q) as Hnone.
    { intros i q Hq.
      rewrite <- app_assoc, lookup_app_r in Hq by lia.
      replace (n + i - length (queries w)) with i in Hq by (subst n; lia).
      intros [Hdown|[Hfetch Hkind]].
      + destruct (decide (i < length batches)) as [Hi|Hi].
        * rewrite lookup_app_l in Hq by (by rewrite length_fmap).
          apply list_lookup_fmap_Some in Hq as (b & -> & Hb).
          by apply (Hup i b Hb).
        * rewrite lookup_app_r in Hq by (rewrite length_fmap; lia).
          rewrite length_fmap in Hq.
          destruct (i - length batches) as [|[|j]] eqn:Hj; [| | done].
          -- injection Hq as <-.
             replace (n + i) with (n + length batches) in Hdown by lia.
             congruence.
          -- injection Hq as <-.
             replace (n + i) with (S (n + length batches)) in Hdown by lia.
             congruence.
      + destruct (decide (i < length batches)) as [Hi|Hi].
        * rewrite lookup_app_l in Hq by (by rewrite length_fmap).
          apply list_lookup_fmap_Some in Hq as (b & -> & Hb).
          by apply (Hkind b).
        * rewrite lookup_app_r in Hq by (rewrite length_fmap; lia).
          rewrite length_fmap in Hq.
          destruct (i - length batches) as [|[|j]] eqn:Hj; [| | done].
          -- injection Hq as <-.
             replace (n + i) with (n + length batches) in Hfetch by lia.
             congruence.
          -- injection Hq as <-.
             replace (n + i) with (S (n + length batches)) in Hfetch by lia.
             congruence. }
    pose proof (finalize_outcome hash draws views
                  (aggregate (rows1 ++ rows2) Dict.empty)) as Hfin.
    case_decide as Hcase.
    + rewrite Hfin. right. destruct Hcase as [Hviews _]. by split_and!.
    + by destruct Hfin as (res & more & ->).
  - destruct Hr as (-> & -> & bs & b & -> & Hdown). cbn [fst snd queries].
    left. split; [done |].
    exists (SubcategoryQuery <$> bs), (SubcategoryQuery b).
    rewrite fmap_app, length_fmap. split; [done | by left].
Qed.

End Request.

(** ** The category lookups *)

Module StrFacts.

Lemma contains_replace_old old new s :
  old ≠ new → Str.contains old (Str.replace old new s) = false.
Proof.
  intros Hne. induction s as [|c s IH]; [done |].
  cbn [Str.replace Str.contains]. rewrite IH, orb_false_r.
  destruct (Ascii.eqb c old) eqn:Hc.
  - apply Ascii.eqb_neq. congruence.
  - done.
Qed.

Lemma contains_replace_other c old new s :
  c ≠ old → c ≠ new →
  Str.contains c (Str.replace old new s) = Str.contains c s.
Proof.
  intros Hold Hnew. induction s as [|c' s IH]; [done |].
  cbn [Str.replace Str.contains]. rewrite IH. f_equal.
  destruct (Ascii.eqb c' old) eqn:Hc; [| done].
  apply Ascii.eqb_eq in Hc as ->.
  rewrite (proj2 (Ascii.eqb_neq new c)) by congruence.
  by rewrite (proj2 (Ascii.eqb_neq old c)) by congruence.
Qed.

End StrFacts.

Module LookupFacts.

Import Lookup.

Lemma rfilter_map_elem {A B} (f : A → result (option B)) l ys y :
  rfilter_map f l = Ok ys → y ∈ ys → ∃ x, x ∈ l ∧ f x = Ok (Some y).
Proof.
  revert ys. induction l as [|x l IH]; intros ys; cbn [rfilter_map].
  - intros [= <-] Hy. by apply elem_of_nil in Hy.
  - unfold rbind. destruct (f x) as [o|e] eqn:Hx; [| done].
    destruct (rfilter_map f l) as [ys'|e]; [| done].
    intros [= <-] Hy. destruct o as [y'|].
    + apply elem_of_cons in Hy as [->|Hy].
      * exists x. split; [apply list_elem_of_here | done].
      * destruct (IH ys' eq_refl Hy) as (x' & ? & ?).
        exists x'. split; [by apply list_elem_of_further | done].
    + destruct (IH ys' eq_refl Hy) as (x' & ? & ?).
      exists x'. split; [by apply list_elem_of_further | done].
Qed.

Lemma rfilter_map_omap {A B} (f : A → result (option B)) g l :
  (∀ x, x ∈ l → f x = Ok (g x)) → rfilter_map f l = Ok (omap g l).
Proof.
  induction l as [|x l IH]; intros Hf; [done |].
  cbn [rfilter_map omap list_omap]. unfold rbind.
  rewrite Hf by apply list_elem_of_here.
  rewrite IH by (intros; by apply Hf, list_elem_of_further).
  done.
Qed.

Lemma rfilter_map_Raised {A B} (f : A → result (option B)) l x e :
  x ∈ l → f x = Raised e → ∃ e', rfilter_map f l = Raised e'.
Proof.
  induction l as [|x' l IH]; intros Hx Hfx; [by apply elem_of_nil in Hx |].
  cbn [rfilter_map]. unfold rbind.
  apply elem_of_cons in Hx as [<-|Hx].
  - rewrite Hfx. by eexists.
  - destruct (f x') as [o|e0]; [| by eexists].
    destruct (IH Hx Hfx) as [e' ->]. by eexists.
Qed.

Lemma category_name_good item b :
  good_title item b →
  category_name item
  = Ok (if Str.contains ":" b then None else Some (Str.replace "_" " " b)).
Proof.
  intros [Hitem [s Hs]]. unfold category_name, rbind, getitem, decode.
  rewrite Hitem, Hs.
  assert (s = b) as ->.
  { unfold Str.decode_utf8 in Hs.
    destruct (Str.valid_utf8_bytes _); congruence. }
  by destruct (Str.contains ":" b).
Qed.

Lemma category_name_bad item :
  bad_title item → ∃ e, category_name item = Raised e.
Proof.
  intros Hbad. unfold category_name, rbind, getitem, decode.
  destruct (item !! "cat_title"%string) as [[b|s|]|] eqn:Hitem;
    try by eexists.
  rewrite (Hbad b Hitem). by eexists.
Qed.

Lemma category_names_good rows titles :
  Forall2 good_title rows titles →
  category_names (Rows rows)
  = Ok (Str.replace "_" " " <$> filter (fun t => no_colon t = true) titles).
Proof.
  intros Hgood. unfold category_names. cbn [fetchall rbind].
  induction Hgood as [|item b rows titles Hitem Hrows IH]; [done |].
  cbn [rfilter_map]. unfold rbind.
  rewrite (category_name_good _ _ Hitem), IH, filter_cons.
  destruct (Str.contains ":" b) eqn:Hcolon.
  - by rewrite decide_False by (unfold no_colon; by rewrite Hcolon).
  - by rewrite decide_True by (unfold no_colon; by rewrite Hcolon).
Qed.

Lemma category_names_bad rows item :
  item ∈ rows → bad_title item → ∃ e, category_names (Rows rows) = Raised e.
Proof.
  intros Hitem [e He]%category_name_bad.
  unfold category_names. cbn [fetchall rbind].
  by eapply rfilter_map_Raised.
Qed.

Lemma category_names_clean cursor names name :
  category_names cursor = Ok names → name ∈ names →
  Str.contains ":" name = false ∧ Str.contains "_" name = false.
Proof.
  unfold category_names, rbind.
  destruct (fetchall cursor) as [items|]; [| done].
  intros Hnames Hname.
  destruct (rfilter_map_elem _ _ _ _ Hnames Hname) as (item & _ & Hitem).
  unfold category_name, rbind in Hitem.
  destruct (getitem item "cat_title") as [v|]; [| done].
  destruct (decode v) as [title|]; [| done].
  destruct (Str.contains ":" title) eqn:Hcolon; [done |].
  injection Hitem as <-. split.
  - by rewrite StrFacts.contains_replace_other.
  - by apply StrFacts.contains_replace_old.
Qed.

Section Methods.

Context (svc : Lookup.service) (raiseExceptions : bool)
  (capitalize lower : string → string)
  (all_categories : Dict.t (list string)).

(** X12. When every row of the answer holds a title in well formed
    [bytes], [matching_categories] sends its one query, for the
    capitalized letters followed by [%], and returns the titles that hold
    no colon, underscores turned to spaces, in the order of the rows. *)
Theorem matching_categories_names
  (first_letters : string) (trace : list Lookup.query)
  (rows : list row) (titles : list string) :
  svc (length trace)
    (AutocompleteQuery (capitalize first_letters +:+ "%")) = Rows rows →
  Forall2 good_title rows titles →
  matching_categories svc raiseExceptions capitalize first_letters trace
  = (Returns
       (Str.replace "_" " " <$> filter (fun t => no_colon t = true) titles),
     trace ++ [AutocompleteQuery (capitalize first_letters +:+ "%")]).
Proof.
  intros Hsvc Hgood. unfold matching_categories.
  by rewrite Hsvc, (category_names_good _ _ Hgood).
Qed.

(** X13. No name that [matching_categories] returns holds a colon or an
    underscore: categories of a namespace are never offered. *)
Theorem matching_categories_no_namespace
  (first_letters : string) (trace trace' : list Lookup.query)
  (names : list string) :
  matching_categories svc raiseExceptions capitalize first_letters trace
  = (Returns names, trace') →
  ∀ name, name ∈ names →
          Str.contains ":" name = false ∧ Str.contains "_" name = false.
Proof.
  unfold matching_categories, logger_log.
  destruct (svc (length trace) _) as [| |rows] eqn:Hsvc; [done | |].
  - cbn. destruct raiseExceptions; [done |].
    intros [= <- _] name Hname. by apply elem_of_nil in Hname.
  - destruct (category_names (Rows rows)) as [names'|e] eqn:Hnames.
    + intros [= <- _] name Hname. by eapply category_names_clean.
    + destruct raiseExceptions; [done |].
      intros [= <- _] name Hname. by apply elem_of_nil in Hname.
Qed.

(** X14. The faults of [matching_categories]. A row whose title is
    missing, no [bytes] or no UTF-8, or a fetch that fails, leads into the
    handler, whose call of [Logger.log] with the message as its level
    raises [TypeError]: the empty list of the handler is returned only
    where [logging.raiseExceptions] is cleared, and nothing is logged
    either way. A query that fails raises [DatabaseError]. Nothing else
    leaves the method. *)
Theorem matching_categories_faults
  (first_letters : string) (trace : list Lookup.query) :
  let q := AutocompleteQuery (capitalize first_letters +:+ "%") in
  let run :=
    matching_categories svc raiseExceptions capitalize first_letters trace in
  (∀ rows item,
     svc (length trace) q = Rows rows → item ∈ rows → bad_title item →
     run = (if raiseExceptions then Raises TypeError else Returns [],
            trace ++ [q]))
  ∧ (svc (length trace) q = FetchFails →
     run = (if raiseExceptions then Raises TypeError else Returns [],
            trace ++ [q]))
  ∧ (svc (length trace) q = QueryFails →
     run = (Raises (Builtin DatabaseError), trace ++ [q]))
  ∧ (∀ x, run.1 = Raises x → x = TypeError ∨ x = Builtin DatabaseError).
Proof.
  intros q run. subst run. unfold matching_categories, logger_log. fold q.
  split_and!.
  - intros rows item -> Hitem Hbad.
    destruct (category_names_bad rows item Hitem Hbad) as [e ->].
    by destruct raiseExceptions.
  - intros ->. cbn. by destruct raiseExceptions.
  - by intros ->.
  - intros x. destruct (svc (length trace) q) as [| |rows].
    + intros [= <-]. by right.
    + cbn. destruct raiseExceptions; [| done]. intros [= <-]. by left.
    + destruct (category_names (Rows rows)); [done |].
      destruct raiseExceptions; [| done]. intros [= <-]. by left.
Qed.

(** X15. [suggest_categories]: rows with well formed titles give the
    titles without a colon, underscores turned to spaces; a row with a
    title that is missing, no [bytes] or no UTF-8 gives [TypeError], and
    the three names of the handler only where [logging.raiseExceptions] is
    cleared; a query that fails raises [DatabaseError]. One query is
    sent. *)
Theorem suggest_categories_outcome (trace : list Lookup.query) :
  let run := suggest_categories svc raiseExceptions trace in
  run.2 = trace ++ [SuggestQuery]
  ∧ (∀ rows titles,
       svc (length trace) SuggestQuery = Rows rows →
       Forall2 good_title rows titles →
       run.1
       = Returns
           (Str.replace "_" " " <$>
            filter (fun t => no_colon t = true) titles))
  ∧ (∀ rows item,
       svc (length trace) SuggestQuery = Rows rows →
       item ∈ rows → bad_title item →
       run.1
       = if raiseExceptions then Raises TypeError
         else Returns ["China"; "19. Jahrhundert"; "Fußball"]%string)
  ∧ (svc (length trace) SuggestQuery = QueryFails →
     run.1 = Raises (Builtin DatabaseError)).
Proof.
  intros run. subst run. unfold suggest_categories, logger_log.
  split_and!.
  - destruct (svc (length trace) SuggestQuery) as [| |rows]; [done | |].
    + cbn. by destruct raiseExceptions.
    + destruct (category_names (Rows rows)); [done |].
      by destruct raiseExceptions.
  - intros rows titles -> Hgood. by rewrite (category_names_good _ _ Hgood).
  - intros rows item -> Hitem Hbad.
    destruct (category_names_bad rows item Hitem Hbad) as [e ->].
    by destruct raiseExceptions.
  - by intros ->.
Qed.

(** X16. With a cache that is not empty, [autocomplete] asks the database
    nothing and raises nothing: it returns the names of the bucket of the
    first three characters, capitalized, whose lower case starts with the
    lower case of the letters, in the order of the bucket, and the empty
    list when the cache has no such bucket. With an empty cache it is
    [matching_categories]. *)
Theorem autocomplete_cached
  (first_letters : string) (trace : list Lookup.query) :
  let run :=
    autocomplete svc raiseExceptions capitalize lower all_categories
      first_letters trace in
  let key := capitalize (take_chars 3 first_letters) in
  (all_categories ≠ [] →
   ∃ names,
     run = (Returns names, trace)
     ∧ names `sublist_of` default [] (Dict.get key all_categories)
     ∧ (∀ cat, cat ∈ names ↔
               cat ∈ default [] (Dict.get key all_categories)
               ∧ String.prefix (lower first_letters) (lower cat) = true)
     ∧ (Dict.get key all_categories = None → names = []))
  ∧ (all_categories = [] →
     run
     = matching_categories svc raiseExceptions capitalize first_letters trace).
Proof.
  intros run key. subst run. unfold autocomplete. fold key. split.
  - intros Hcache. rewrite bool_decide_eq_true_2 by done.
    eexists. split_and!; [done | apply sublist_filter | |].
    + intros cat. rewrite list_elem_of_filter. tauto.
    + by intros ->.
  - intros ->. by rewrite bool_decide_eq_false_2 by (by intros []).
Qed.

End Methods.

End LookupFacts.

(** ** The further properties at work on the examples *)

(** X4 on a database with a row without problem and a row whose problem is
    [NULL]: the page [Tor] of the first does not appear, the page
    [Elfmeter] of the second does. *)
Lemma find_tagged_articles_entries_reported_witness :
  ∃ res more w',
    _find_tagged_articles svc_portal hash_zero [] false ["Sport"%string] w0
    = (Ok (res, more), w')
    ∧ page <$> res = ["Abseits"; "Elfmeter"]%string
    ∧ ∃ rows1 rows2,
        svc_portal (length (queries w0))
          (ArticlesQuery (Str.join "|" ["Sport"%string]) TAGS) = Rows rows1
        ∧ svc_portal (S (length (queries w0)))
            (IabotQuery (Str.join "|" ["Sport"%string]) IABOT_CATS)
          = Rows rows2
        ∧ ∀ r, r ∈ res →
               problems r ≠ [] ∧ page r ∈ reported_pages (rows1 ++ rows2).
Proof.
  eexists _, _, _. split; [vm_compute; reflexivity |]. split; [done |].
  eapply (find_tagged_articles_entries_reported svc_portal hash_zero [] false
            ["Sport"%string] w0).
  vm_compute; reflexivity.
Defined.

(** X5 on the same database. *)
Lemma find_tagged_articles_order_witness :
  ∃ res more w',
    _find_tagged_articles svc_portal hash_zero [] false ["Sport"%string] w0
    = (Ok (res, more), w')
    ∧ ∃ rows1 rows2,
        svc_portal (length (queries w0))
          (ArticlesQuery (Str.join "|" ["Sport"%string]) TAGS) = Rows rows1
        ∧ svc_portal (S (length (queries w0)))
            (IabotQuery (Str.join "|" ["Sport"%string]) IABOT_CATS)
          = Rows rows2
        ∧ more
          = bool_decide
              (NUM
               < length (first_occurrences (reported_pages (rows1 ++ rows2))))
        ∧ (more = false →
           page <$> res
           = first_occurrences (reported_pages (rows1 ++ rows2))).
Proof.
  eexists _, _, _. split; [vm_compute; reflexivity |].
  eapply (find_tagged_articles_order svc_portal hash_zero [] false
            ["Sport"%string] w0).
  vm_compute; reflexivity.
Defined.

(** X6 on the same database: the problems are text and [None]. *)
Lemma find_tagged_articles_problems_text_witness :
  ∃ res more w',
    _find_tagged_articles svc_portal hash_zero [] false ["Sport"%string] w0
    = (Ok (res, more), w')
    ∧ problems <$> res
      = [[PyStr "Belege fehlen"; PyStr "Defekter_Weblink"]; [PyNone]]
    ∧ ∀ r x, r ∈ res → x ∈ problems r → is_text x.
Proof.
  eexists _, _, _. split; [vm_compute; reflexivity |]. split; [done |].
  eapply (find_tagged_articles_problems_text svc_portal hash_zero [] false
            ["Sport"%string] w0).
  vm_compute; reflexivity.
Defined.

(** X7 on a graph of three levels with a category in a namespace. *)
Lemma expansion_set_witness :
  ∃ tree w',
    expansion svc_portal "Sport" w0 = (Ok tree, w')
    ∧ ∃ batches,
        queries w' = queries w0 ++ (SubcategoryQuery <$> batches)
        ∧ frontier_chain svc_portal (length (queries w0))
            (filter (fun cat => no_colon cat = true) ["Sport"%string]) batches
        ∧ (∀ c, c ∈ tree ↔
                c = Str.replace " " "_" "Sport"
                ∨ c ∈ answers svc_portal (length (queries w0)) batches)
        ∧ ∀ b c, b ∈ batches → c ∈ b → no_colon c = true.
Proof.
  eexists _, _. split; [vm_compute; reflexivity |].
  apply (expansion_set svc_portal "Sport" w0).
  vm_compute; reflexivity.
Defined.

(** X8 on the name of a category of the project namespace. *)
Lemma find_articles_namespace_root_witness :
  Str.contains ":" "Wikipedia:Defekte Weblinks" = true
  ∧ expansion svc_portal "Wikipedia:Defekte Weblinks" w0
    = (Ok {[ Str.replace " " "_" "Wikipedia:Defekte Weblinks" ]}, w0)
  ∧ find_articles svc_portal hash_zero [] false "Wikipedia:Defekte Weblinks" w0
    = _find_tagged_articles svc_portal hash_zero [] false
        [Str.replace " " "_" "Wikipedia:Defekte Weblinks"] w0.
Proof.
  split; [reflexivity |].
  apply (find_articles_namespace_root svc_portal hash_zero [] false
           "Wikipedia:Defekte Weblinks" w0).
  reflexivity.
Defined.

(** X12 and X13 on a database of three categories, one of a namespace. *)
Lemma matching_categories_names_witness :
  ∃ rows titles,
    Lookup.svc_ex (length (@nil Lookup.query))
      (Lookup.AutocompleteQuery (Lookup.ascii_capitalize "fre" +:+ "%"))
    = Rows rows
    ∧ Forall2 Lookup.good_title rows titles
    ∧ Lookup.matching_categories Lookup.svc_ex true Lookup.ascii_capitalize
        "fre" []
      = (Lookup.Returns
           (Str.replace "_" " " <$>
            filter (fun t => no_colon t = true) titles),
         [] ++ [Lookup.AutocompleteQuery
                  (Lookup.ascii_capitalize "fre" +:+ "%")]).
Proof.
  exists [Lookup.cat_row "Fremde_Welten"; Lookup.cat_row "Wikipedia:Fremd";
          Lookup.cat_row "Freiburg"],
         ["Fremde_Welten"; "Wikipedia:Fremd"; "Freiburg"]%string.
  assert (Forall2 Lookup.good_title
            [Lookup.cat_row "Fremde_Welten"; Lookup.cat_row "Wikipedia:Fremd";
             Lookup.cat_row "Freiburg"]
            ["Fremde_Welten"; "Wikipedia:Fremd"; "Freiburg"]%string) as Hgood.
  { repeat constructor; by eexists. }
  split; [reflexivity |]. split; [exact Hgood |].
  apply (LookupFacts.matching_categories_names Lookup.svc_ex true
           Lookup.ascii_capitalize "fre" [] _ _ eq_refl Hgood).
Defined.

Lemma matching_categories_no_namespace_witness :
  ∃ names trace',
    Lookup.matching_categories Lookup.svc_ex true Lookup.ascii_capitalize
      "fre" []
    = (Lookup.Returns names, trace')
    ∧ names = ["Fremde Welten"; "Freiburg"]%string
    ∧ ∀ name, name ∈ names →
              Str.contains ":" name = false ∧ Str.contains "_" name = false.
Proof.
  eexists _, _. split; [vm_compute; reflexivity |]. split; [done |].
  eapply (LookupFacts.matching_categories_no_namespace Lookup.svc_ex true
            Lookup.ascii_capitalize "fre" []).
  vm_compute; reflexivity.
Defined.

(** X14 and X15 on a database with a title that is [NULL], and X16 on a
    cache of two buckets. *)
Example lookup_null_title :
  Lookup.matching_categories Lookup.svc_null true Lookup.ascii_capitalize
    "chi" []
  = (Lookup.Raises Lookup.TypeError, [Lookup.AutocompleteQuery "Chi%"])
  ∧ Lookup.suggest_categories Lookup.svc_null true []
    = (Lookup.Raises Lookup.TypeError, [Lookup.SuggestQuery])
  ∧ Lookup.suggest_categories Lookup.svc_null false []
    = (Lookup.Returns ["China"; "19. Jahrhundert"; "Fußball"]%string,
       [Lookup.SuggestQuery]).
Proof. split_and!; vm_compute; reflexivity. Qed.

Example autocomplete_cache :
  Lookup.autocomplete Lookup.svc_ex true Lookup.ascii_capitalize
    Lookup.ascii_lower Lookup.cache_ex "frE" []
  = (Lookup.Returns ["Fremdsprache"; "Freiburg"; "Fresko"]%string, [])
  ∧ Lookup.autocomplete Lookup.svc_ex true Lookup.ascii_capitalize
      Lookup.ascii_lower Lookup.cache_ex "Ber" []
    = (Lookup.Returns [], []).
Proof. split; vm_compute; reflexivity. Qed.

(** X3 and X11 on a database whose second query for pages fails. *)
Example iabot_failure_raises :
  find_articles svc_iabot_down hash_zero [] false "Sport" w0
  = (Raised DatabaseError,
     World [SubcategoryQuery ["Sport"%string];
            ArticlesQuery "Sport" TAGS; IabotQuery "Sport" IABOT_CATS] []).
Proof. vm_compute; reflexivity. Qed.
